(** * Chatbot_Recommender.py: the demo recommender [demo_recommend]

    A shallow embedding of the scoring and author-diversity selection of
    [src/Chatbot_Recommender.py] (lines 18-114), and the properties the
    specification states about it.

    Modelling conventions.
    - Python [float] values (scores, popularity, explore_strength) are
      idealised as exact rationals [Q]: rounding, infinities and NaN are
      outside the model.  Where a property turns on rounding, the score of
      lines 80-87 is also evaluated in binary64 ([composite_score_b64], on
      primitive floats).  Python [int] is [Z]; [len] yields a [nat] that is
      injected into [Z] where the code does arithmetic on it.
    - Python [str] is [string]; Python [set] of strings is [gset string].
    - [str.lower] is a builtin of the Python runtime: the development is
      parametric in it (Section variable [lower]); [ascii_lower] is the
      instance used to evaluate the code on ASCII and Hangul text.
    - Arguments are well typed: [prefs] binds ['genres'] to a list of
      strings, ['tone'] to a string or [None], ['recent_only'] to a bool
      (each key may be absent); [k] is an int and [mode] any string.
    - The module globals [DEMO_DB] and [CURRENT_YEAR] live in a store
      ([globals]) that every call reads through a small state-and-exception
      monad [M]; true division is the one operation of the function that can
      raise ([ZeroDivisionError]). *)

From Stdlib Require Import QArith ZArith String List Ascii Sorted Permutation Lia Lqa.
From Stdlib Require Qabs PrimFloat Uint63.
From stdpp Require Import base strings gmap list sorting.

Open Scope string_scope.
Open Scope list_scope.
Open Scope Z_scope.

(** ** Data model *)

(** One row of [DEMO_DB]:
    [(title, author, year, tone, genres, popularity)]. *)
Record rec := mkRec {
  title : string;
  author : string;
  year : Z;
  btone : string;
  bgenres : list string;
  popularity : Q
}.

(** The [prefs] dict, read with [prefs.get]: a field is [None] when the key is
    absent (for ['tone'] also when it is bound to Python's [None]). *)
Record prefs_dict := mkPrefs {
  prefs_genres : option (list string);
  prefs_tone : option string;
  prefs_recent_only : option bool
}.

(** An element of [scored] and of the returned list: [(rec, score, why)]. *)
Definition candidate : Type := rec * Q * list string.

Definition c_rec (c : candidate) : rec := fst (fst c).
Definition c_score (c : candidate) : Q := snd (fst c).
Definition c_why (c : candidate) : list string := snd c.

Definition RECENT_YEARS : Z := 5.

(** The literal catalog of the source (lines 25-39). *)
Definition DEMO_DB : list rec :=
  [ mkRec "노인과 바다" "어니스트 헤밍웨이" 1952 "잔잔" ["소설"; "고전"] 0.98
  ; mkRec "그리고 아무도 없었다" "아가사 크리스티" 1939 "스릴" ["미스터리"; "소설"] 0.97
  ; mkRec "데미안" "헤르만 헤세" 1919 "진지" ["소설"; "성장"] 0.96
  ; mkRec "나는 고양이로소이다" "나쓰메 소세키" 1905 "유머" ["소설"; "고전"] 0.9
  ; mkRec "해리 포터와 마법사의 돌" "J.K. 롤링" 1997 "모험" ["판타지"; "소설"] 0.99
  ; mkRec "사피엔스" "유발 하라리" 2011 "진지" ["논픽션"; "역사"] 0.98
  ; mkRec "유혹하는 에세이" "알랭 드 보통" 2000 "잔잔" ["에세이"] 0.85
  ; mkRec "The Midnight Library" "Matt Haig" 2020 "잔잔" ["소설"] 0.9
  ; mkRec "Project Hail Mary" "Andy Weir" 2021 "스릴" ["SF"; "소설"] 0.92
  ; mkRec "나의 산책은 길에서 시작된다" "임의 작가A" 2018 "잔잔" ["에세이"] 0.3
  ; mkRec "도시의 낮은 별들" "임의 작가B" 2022 "진지" ["소설"] 0.25
  ; mkRec "바람이 그린 지도" "임의 작가C" 2023 "모험" ["소설"; "여행"] 0.2
  ].

(** ** Exceptions, the global store and the monad of a call *)

Inductive exn := ZeroDivisionError.

Inductive result (A : Type) :=
| Ok (a : A)
| Raise (e : exn).
Arguments Ok {A} a.
Arguments Raise {A} e.

Definition result_bind {A B} (r : result A) (f : A -> result B) : result B :=
  match r with
  | Ok a => f a
  | Raise e => Raise e
  end.

(** The module-level names the function reads. *)
Record globals := mkGlobals {
  g_DEMO_DB : list rec;
  g_CURRENT_YEAR : Z
}.

Definition M (A : Type) : Type := globals -> result A * globals.

Definition ret {A} (a : A) : M A := fun g => (Ok a, g).

Definition bind {A B} (m : M A) (f : A -> M B) : M B :=
  fun g =>
    match m g with
    | (Ok a, g') => f a g'
    | (Raise e, g') => (Raise e, g')
    end.

Definition lift {A} (r : result A) : M A := fun g => (r, g).

Definition read {A} (field : globals -> A) : M A := fun g => (Ok (field g), g).

Notation "'let*' x ':=' m 'in' k" := (bind m (fun x => k))
  (at level 10, x name, m at level 100, k at level 200).

(** Python's [a / b] on integers. *)
Definition truediv (a b : Z) : result Q :=
  if b =? 0 then Raise ZeroDivisionError
  else Ok (inject_Z a / inject_Z b)%Q.

(** Python truthiness of an optional string: [None] and [''] are falsy. *)
Definition truthy (s : option string) : bool :=
  match s with
  | None => false
  | Some s => negb (String.eqb s "")
  end.

(** [tone == btone], for [tone] an optional string and [btone] a string. *)
Definition tone_eq (tone : option string) (b : string) : bool :=
  match tone with
  | None => false
  | Some s => String.eqb s b
  end.

Definition Qltb (x y : Q) : bool := negb (Qle_bool y x).

(** Loop control: what the body of a [for] loop asks for. *)
Inductive control := Continue | Break.

(** A [for x in l] loop over a state, with [break]. *)
Fixpoint for_each {A S : Type} (body : A -> S -> S * control) (l : list A) (s : S)
  : S * control :=
  match l with
  | [] => (s, Continue)
  | a :: l' =>
      match body a s with
      | (s', Break) => (s', Break)
      | (s', Continue) => for_each body l' s'
      end
  end.

(** An instance of [str.lower] on byte strings: ASCII capitals are mapped to
    small letters and every other byte (so every UTF-8 encoded Hangul
    syllable) is kept.  It agrees with Python on text whose non-ASCII
    characters have no case. *)
Definition ascii_lower_char (c : ascii) : ascii :=
  let n := nat_of_ascii c in
  if (65 <=? n)%nat && (n <=? 90)%nat then ascii_of_nat (n + 32) else c.

Fixpoint ascii_lower (s : string) : string :=
  match s with
  | EmptyString => EmptyString
  | String c s' => String (ascii_lower_char c) (ascii_lower s')
  end.

Section Recommender.

(** [str.lower]. *)
Variable lower : string -> string.

(** *** [_genre_overlap] (lines 45-50) *)
Definition _genre_overlap (user_genres book_genres : list string) : result Q :=
  let ug : gset string := list_to_set (map lower user_genres) in
  let bg : gset string := list_to_set (map lower book_genres) in
  if bool_decide (ug = ∅) then Ok 0.2%Q
  else truediv (Z.of_nat (size (ug ∩ bg))) (Z.max 1 (Z.of_nat (size ug))).

(** *** [demo_recommend], first loop (lines 58-100) *)

Definition W_GENRE : Q := 0.55.
Definition W_TONE : Q := 0.3.
Definition W_RECENT : Q := 0.15.

(** Lines 67-72: [(pop_alpha, pop_beta)]. *)
Definition pop_weights (mode : string) (explore_strength : Q) : Q * Q :=
  if String.eqb mode "famous" then (0.30, 0.00)%Q
  else if String.eqb mode "balanced" then (0.15, 0.10)%Q
  else (0.00%Q, explore_strength).

(** Line 81. *)
Definition tone_score (tone : option string) (b : string) : Q :=
  if truthy tone && tone_eq tone b then 1.0%Q
  else if negb (truthy tone) then 0.5%Q else 0.2%Q.

(** Line 82. *)
Definition recent_score (current_year y : Z) : Q :=
  if y >=? current_year - RECENT_YEARS then 1.0%Q else 0.5%Q.

(** Lines 89-98: the rationale list [why]. *)
Definition why_tags (s_genre s_tone : Q) (recent_only : bool) (mode : string)
  : list string :=
  let why : list string := [] in
  let why := if Qltb 0.0 s_genre then why ++ ["장르 일치"] else why in
  let why := if Qeq_bool s_tone 1.0 then why ++ ["톤 일치"] else why in
  let why := if recent_only then why ++ ["최근 5년 필터"] else why in
  if String.eqb mode "discover" then why ++ ["발굴 가중"]
  else if String.eqb mode "famous" then why ++ ["유명도 가중"]
  else why ++ ["균형 가중"].

(** Line 77: the [continue] guard of the first loop. *)
Definition too_old (recent_only : bool) (current_year : Z) (r : rec) : bool :=
  recent_only && (year r <? current_year - RECENT_YEARS).

(** Lines 80-87: the composite score of one record. *)
Definition score_of (genres : list string) (tone : option string)
    (pop_alpha pop_beta : Q) (current_year : Z) (r : rec) : result (Q * Q * Q) :=
  result_bind (_genre_overlap genres (bgenres r)) (fun s_genre =>
  let s_tone := tone_score tone (btone r) in
  let s_recent := recent_score current_year (year r) in
  let pop_score := (pop_alpha * popularity r + pop_beta * (1.0 - popularity r))%Q in
  let score := ((W_GENRE * s_genre + W_TONE * s_tone + W_RECENT * s_recent)
                + pop_score)%Q in
  Ok (s_genre, s_tone, score)).

(** Lines 76-100: one iteration; [None] is the [continue] of line 78. *)
Definition score_body (genres : list string) (tone : option string)
    (recent_only : bool) (mode : string) (pop_alpha pop_beta : Q)
    (current_year : Z) (r : rec) : result (option candidate) :=
  if too_old recent_only current_year r then Ok None
  else
    result_bind (score_of genres tone pop_alpha pop_beta current_year r)
      (fun '(s_genre, s_tone, score) =>
         Ok (Some (r, score, why_tags s_genre s_tone recent_only mode))).

(** Lines 74-100: the loop over the catalog, appending to [scored]. *)
Fixpoint score_loop (body : rec -> result (option candidate))
    (db : list rec) (scored : list candidate) : result (list candidate) :=
  match db with
  | [] => Ok scored
  | r :: db' =>
      match body r with
      | Raise e => Raise e
      | Ok None => score_loop body db' scored
      | Ok (Some c) => score_loop body db' (scored ++ [c])
      end
  end.

(** *** [scored.sort(key=lambda x: x[1], reverse=True)] (line 103)

    Python's sort is stable, also with [reverse=True]: the result is the one
    arrangement in descending score order that keeps candidates of equal
    score in their order of insertion. *)
Fixpoint insert_desc (x : candidate) (l : list candidate) : list candidate :=
  match l with
  | [] => [x]
  | y :: l' =>
      if Qle_bool (c_score y) (c_score x) then x :: y :: l'
      else y :: insert_desc x l'
  end.

Fixpoint sort_desc (l : list candidate) : list candidate :=
  match l with
  | [] => []
  | x :: l' => insert_desc x (sort_desc l')
  end.

(** *** Author-diversity walk (lines 104-113) *)

(** The loop state: [(picked, seen_authors)]. *)
Definition walk_state : Type := list candidate * gset string.

(** Lines 107-113: one iteration. *)
Definition select_body (k : Z) (c : candidate) (st : walk_state)
  : walk_state * control :=
  let '(picked, seen_authors) := st in
  if bool_decide (author (c_rec c) ∈ seen_authors)
     && (Z.of_nat (length picked) <? k - 1)
  then (st, Continue)
  else
    let picked := picked ++ [c] in
    let seen_authors := seen_authors ∪ {[ author (c_rec c) ]} in
    if Z.of_nat (length picked) >=? k then ((picked, seen_authors), Break)
    else ((picked, seen_authors), Continue).

Definition select (k : Z) (scored : list candidate) : list candidate :=
  fst (fst (for_each (select_body k) scored ([], ∅))).

(** Lines 58-100: everything up to the sort, on the values read from the
    store. *)
Definition score_all (prefs : prefs_dict) (mode : string) (explore_strength : Q)
    (db : list rec) (current_year : Z) : result (list candidate) :=
  let genres := default [] (prefs_genres prefs) in
  let tone := prefs_tone prefs in
  let recent_only := default false (prefs_recent_only prefs) in
  let '(pop_alpha, pop_beta) := pop_weights mode explore_strength in
  score_loop
    (score_body genres tone recent_only mode pop_alpha pop_beta current_year)
    db [].

(** *** [demo_recommend] (lines 53-114) *)
Definition demo_recommend (prefs : prefs_dict) (k : Z) (mode : string)
    (explore_strength : Q) : M (list candidate) :=
  let* db := read g_DEMO_DB in
  let* current_year := read g_CURRENT_YEAR in
  let* scored := lift (score_all prefs mode explore_strength db current_year) in
  let scored := sort_desc scored in
  ret (select k scored).

End Recommender.

(** ** The specification's vocabulary *)

(** The three ranking modes, and the key the user interface passes for each
    (lines 193 and 201). *)
Inductive RankingMode := Famous | Balanced | Discover.

Definition mode_key (m : RankingMode) : string :=
  match m with
  | Famous => "famous"
  | Balanced => "balanced"
  | Discover => "discover"
  end.

(** The table of popularity coefficients [(alpha, beta)]. *)
Definition mode_weights (m : RankingMode) (explorationStrength : Q) : Q * Q :=
  match m with
  | Famous => (0.30, 0.00)%Q
  | Balanced => (0.15, 0.10)%Q
  | Discover => (0.00%Q, explorationStrength)
  end.

(** The composite score as the specification writes it. *)
Definition composite (g t r : Q) (ab : Q * Q) (pop : Q) : Q :=
  (0.55 * g + 0.30 * t + 0.15 * r + fst ab * pop + snd ab * (1 - pop))%Q.

(** Genre overlap on the genre sets as given: intersection size over the
    number of requested genres, 0.2 when nothing is requested. *)
Definition plain_genre_overlap (user book : list string) : Q :=
  let ug : gset string := list_to_set user in
  let bg : gset string := list_to_set book in
  if bool_decide (ug = ∅) then 0.2%Q
  else (inject_Z (Z.of_nat (size (ug ∩ bg))) / inject_Z (Z.of_nat (size ug)))%Q.

(** Genre overlap on the genre sets after lowercasing every genre. *)
Definition lowered_genre_overlap (lower : string -> string)
    (user book : list string) : Q :=
  plain_genre_overlap (map lower user) (map lower book).

(** A tone is specified when the dict binds ['tone'] to a non-empty string. *)
Definition specified_tone (prefs : prefs_dict) : option string :=
  match prefs_tone prefs with
  | Some s => if decide (s = "") then None else Some s
  | None => None
  end.

Definition tone_match (prefs : prefs_dict) (r : rec) : Q :=
  match specified_tone prefs with
  | Some s => if decide (s = btone r) then 1.0%Q else 0.2%Q
  | None => 0.5%Q
  end.

Definition recency_bonus (currentYear : Z) (r : rec) : Q :=
  if decide (currentYear - 5 <= year r) then 1.0%Q else 0.5%Q.

Definition recentOnly (prefs : prefs_dict) : bool :=
  default false (prefs_recent_only prefs).

(** A book survives the filter unless [recentOnly] holds and it is older than
    [currentYear - 5]. *)
Definition survives (prefs : prefs_dict) (currentYear : Z) (r : rec) : bool :=
  negb (recentOnly prefs && bool_decide (year r < currentYear - 5)).

(** The composite score with the genre sets taken as they are given. *)
Definition plain_score (prefs : prefs_dict) (m : RankingMode)
    (explorationStrength : Q) (currentYear : Z) (r : rec) : Q :=
  composite
    (plain_genre_overlap (default [] (prefs_genres prefs)) (bgenres r))
    (tone_match prefs r) (recency_bonus currentYear r)
    (mode_weights m explorationStrength) (popularity r).

(** The composite score with the genre sets lowercased first, under given
    popularity coefficients. *)
Definition weighted_score (lower : string -> string) (prefs : prefs_dict)
    (ab : Q * Q) (currentYear : Z) (r : rec) : Q :=
  composite
    (lowered_genre_overlap lower (default [] (prefs_genres prefs)) (bgenres r))
    (tone_match prefs r) (recency_bonus currentYear r) ab (popularity r).

Definition lowered_score (lower : string -> string) (prefs : prefs_dict)
    (m : RankingMode) (explorationStrength : Q) (currentYear : Z) (r : rec) : Q :=
  weighted_score lower prefs (mode_weights m explorationStrength) currentYear r.

(** The entry the first loop appends for a record, [None] when it skips it. *)
Definition scored_entry (lower : string -> string) (prefs : prefs_dict)
    (mode : string) (explore_strength : Q) (current_year : Z) (r : rec)
  : option candidate :=
  let genres := default [] (prefs_genres prefs) in
  let recent_only := default false (prefs_recent_only prefs) in
  if too_old recent_only current_year r then None
  else
    let s_genre := lowered_genre_overlap lower genres (bgenres r) in
    let s_tone := tone_score (prefs_tone prefs) (btone r) in
    let s_recent := recent_score current_year (year r) in
    let ab := pop_weights mode explore_strength in
    Some (r,
          ((W_GENRE * s_genre + W_TONE * s_tone + W_RECENT * s_recent)
           + (fst ab * popularity r + snd ab * (1.0 - popularity r)))%Q,
          why_tags s_genre s_tone recent_only mode).

(** Scores in descending order. *)
Definition score_ge (a b : candidate) : Prop := (c_score b <= c_score a)%Q.

(** The authors of the picks so far. *)
Definition authors_of (picked : list candidate) : list string :=
  map (fun c => author (c_rec c)) picked.

(** The composite score line 87 computes for a record, under the weights of
    lines 67-72. *)
Definition composite_score (lower : string -> string) (genres : list string)
    (tone : option string) (mode : string) (explore_strength : Q)
    (current_year : Z) (r : rec) : result Q :=
  result_bind
    (score_of lower genres tone
       (fst (pop_weights mode explore_strength))
       (snd (pop_weights mode explore_strength)) current_year r)
    (fun '(_, _, score) => Ok score).

(** ** The composite score in binary64 (lines 80-87) *)

(** The binary64 value of an integer (exact below 2^53). *)
Definition b64_of_Z (z : Z) : PrimFloat.float :=
  if z <? 0 then PrimFloat.opp (PrimFloat.of_uint63 (Uint63.of_Z (- z)))
  else PrimFloat.of_uint63 (Uint63.of_Z z).

(** The binary64 value nearest to [n / d], for integers that binary64 holds
    exactly: what Python reads a decimal literal as, and what [n / d] on two
    ints yields. *)
Definition b64 (q : Q) : PrimFloat.float :=
  PrimFloat.div (b64_of_Z (Qnum q)) (b64_of_Z (Zpos (Qden q))).

(** Lines 85-87, each operation rounded as binary64 rounds it. *)
Definition score_b64
    (s_genre s_tone s_recent pop_alpha pop_beta popularity : PrimFloat.float)
  : PrimFloat.float :=
  let pop_score :=
    PrimFloat.add (PrimFloat.mul pop_alpha popularity)
      (PrimFloat.mul pop_beta (PrimFloat.sub (b64 1.0) popularity)) in
  PrimFloat.add
    (PrimFloat.add
       (PrimFloat.add (PrimFloat.mul (b64 W_GENRE) s_genre)
          (PrimFloat.mul (b64 W_TONE) s_tone))
       (PrimFloat.mul (b64 W_RECENT) s_recent))
    pop_score.

(** Lines 80-87 on a record, under the weights of lines 67-72: the sub-scores
    and weights are the binary64 values of the constants and quotients the
    code takes, the strength and the popularity those of their literals. *)
Definition composite_score_b64 (lower : string -> string) (genres : list string)
    (tone : option string) (mode : string) (explore_strength : Q)
    (current_year : Z) (r : rec) : result PrimFloat.float :=
  result_bind (_genre_overlap lower genres (bgenres r)) (fun s_genre =>
  let s_tone := tone_score tone (btone r) in
  let s_recent := recent_score current_year (year r) in
  let '(pop_alpha, pop_beta) := pop_weights mode explore_strength in
  Ok (score_b64 (b64 s_genre) (b64 s_tone) (b64 s_recent)
        (b64 pop_alpha) (b64 pop_beta) (b64 (popularity r)))).

(** ** Concrete inputs *)

(** The store of a process started in 2025. *)
Definition globals_2025 : globals := mkGlobals DEMO_DB 2025.

Definition prefs_empty : prefs_dict := mkPrefs None None None.

(** A request for the genre "sf", written in small letters. *)
Definition prefs_sf : prefs_dict := mkPrefs (Some ["sf"]) None None.

Definition hail_mary : rec :=
  mkRec "Project Hail Mary" "Andy Weir" 2021 "스릴" ["SF"; "소설"] 0.92.

(** A synthetic catalog: five books, one author. *)
Definition author_x_db : list rec :=
  [ mkRec "X1" "Author X" 2021 "잔잔" ["소설"] 0.9
  ; mkRec "X2" "Author X" 2022 "스릴" ["소설"] 0.8
  ; mkRec "X3" "Author X" 2023 "진지" ["소설"] 0.7
  ; mkRec "X4" "Author X" 2019 "유머" ["에세이"] 0.6
  ; mkRec "X5" "Author X" 2010 "모험" ["여행"] 0.5
  ].

Definition globals_author_x : globals := mkGlobals author_x_db 2025.

(** Two scored candidates of that author. *)
Definition cand_x1 : candidate :=
  (mkRec "X1" "Author X" 2021 "잔잔" ["소설"] 0.9, 0.68%Q, ["유명도 가중"]).

Definition cand_x2 : candidate :=
  (mkRec "X2" "Author X" 2022 "스릴" ["소설"] 0.8, 0.65%Q, ["유명도 가중"]).

(** Two catalog records with the same genres and recency, far apart in
    popularity. *)
Definition low_stars : rec :=
  mkRec "도시의 낮은 별들" "임의 작가B" 2022 "진지" ["소설"] 0.25.

Definition midnight_library : rec :=
  mkRec "The Midnight Library" "Matt Haig" 2020 "잔잔" ["소설"] 0.9.

(** A request with the recentOnly filter on. *)
Definition prefs_recent : prefs_dict := mkPrefs None None (Some true).

(** ** [build_prompt] (lines 120-144) and the button handlers (lines 190-210) *)

(** A subscript [d[key]] on a dict literal: the value, or [KeyError(key)]. *)
Inductive lookup (A : Type) :=
| Found (a : A)
| KeyError (key : string).
Arguments Found {A} a.
Arguments KeyError {A} key.

Fixpoint dict_get {A : Type} (d : list (string * A)) (key : string) : lookup A :=
  match d with
  | [] => KeyError key
  | (key', v) :: d' => if String.eqb key' key then Found v else dict_get d' key
  end.

(** The line feed of the template. *)
Definition nl : string := String (ascii_of_nat 10) EmptyString.

(** [', '.join(xs) if xs else dflt]. *)
Definition join_or (xs : list string) (dflt : string) : string :=
  match xs with
  | [] => dflt
  | _ :: _ => String.concat ", " xs
  end.

(** [s or dflt]. *)
Definition str_or (s dflt : string) : string :=
  if String.eqb s "" then dflt else s.

(** What [build_prompt] can raise, and the outcome of a call. *)
Inductive prompt_exn :=
| PromptKeyError (key : string)
| PromptOverflowError.

Inductive attempt (A : Type) :=
| Returned (a : A)
| Raised (e : prompt_exn).
Arguments Returned {A} a.
Arguments Raised {A} e.

(** The least magnitude that rounds to an infinite binary64 value:
    2^1024 - 2^970, half an ulp above the largest finite one. *)
Definition b64_overflow : Q := inject_Z (2 ^ 1024 - 2 ^ 970).

Section Prompt.

(** [textwrap.dedent] and [str.strip], of the Python library. *)
Variable dedent : string -> string.
Variable strip : string -> string.

(** The digits an f-string puts for [int(x)], [x] a finite binary64 value:
    the rounding of the float product, its truncation and its decimal text
    are the runtime's. *)
Variable percent : Q -> string.

(** [int(explore_strength*100)]: the product is rounded to binary64, and [int]
    raises [OverflowError] on an infinite value, which is what a product of
    magnitude [b64_overflow] or more rounds to.  (Strengths are finite here;
    a strength that is itself infinite raises the same, a NaN [ValueError].) *)
Definition int_percent (explore_strength : Q) : attempt string :=
  if Qle_bool b64_overflow (Qabs.Qabs (explore_strength * 100))
  then Raised PromptOverflowError
  else Returned (percent explore_strength).

(** Lines 121-125: the dict literal that is subscripted with [mode].  All
    three values are evaluated when the dict is built, before the subscript:
    the f-string of 'discover' is evaluated for every mode. *)
Definition mode_texts (explore_strength : Q) : attempt (list (string * string)) :=
  match int_percent explore_strength with
  | Raised e => Raised e
  | Returned digits =>
      Returned
        [ ("famous", "유명도 높은 작품 우선")
        ; ("balanced", "유명도와 발굴의 균형")
        ; ("discover",
           String.append "발굴 우선(실험성 " (String.append digits "%)"))
        ]
  end.

(** Lines 127-143: the value of the f-string, line by line. *)
Definition prompt_text (mode_text : string) (genres : list string) (tone : string)
    (avoid liked_books : list string) (length_pref : string)
    (recent_only : bool) : string :=
  String.concat nl
    [ ""
    ; "    아래 사용자의 선호를 반영해 실제로 존재하는 책만 5권 이내로 추천해 주세요."
    ; String.append "    - 모드: " mode_text
    ; "    - 실수/환각 방지: 존재 불명/오탈자 제목 금지, 세부 수치(페이지/ISBN/가격) 추정 금지"
    ; "    - 민감 콘텐츠는 '기피 요소'를 기준으로 제외"
    ; "    - 각 추천에 2–3줄 근거(장르/톤/테마 중심, 스포일러 금지)"
    ; "    - 다양성: 동일 작가/시리즈 과도 반복 금지"
    ; "    - 언어 표기는 원제 병기 가능, 한글 응답"
    ; String.append "    - 최신성 필터: "
        (if recent_only then "최근 5년만" else "제한 없음")
    ; ""
    ; "    [사용자 입력]"
    ; String.append "    • 선호 장르: " (join_or genres "(미입력)")
    ; String.append "    • 선호 톤: " (str_or tone "(미입력)")
    ; String.append "    • 기피 요소: " (join_or avoid "(없음)")
    ; String.append "    • 최근 좋아한 책(선택): " (join_or liked_books "(미입력)")
    ; String.append "    • 분량 느낌: " length_pref
    ; "    "
    ].

(** Lines 120-144. *)
Definition build_prompt (genres : list string) (tone : string)
    (avoid liked_books : list string) (length_pref : string)
    (recent_only : bool) (mode : string) (explore_strength : Q) : attempt string :=
  match mode_texts explore_strength with
  | Raised e => Raised e
  | Returned texts =>
      match dict_get texts mode with
      | KeyError key => Raised (PromptKeyError key)
      | Found mode_text =>
          let prompt :=
            dedent (prompt_text mode_text genres tone avoid liked_books
                      length_pref recent_only) in
          Returned (strip prompt)
      end
  end.

(** Lines 193 and 201: the dict that turns the label of the mode radio into
    the key of a mode. *)
Definition mode_keys : list (string * string) :=
  [ ("유명도 우선", "famous"); ("균형", "balanced"); ("발굴 우선", "discover") ].

(** Line 184: the options of the mode radio. *)
Definition mode_labels : list string := ["유명도 우선"; "균형"; "발굴 우선"].

(** Lines 193-194: the prompt computed when the prompt button is pressed. *)
Definition prompt_button (genres : list string) (tone : string)
    (avoid liked_books : list string) (length_pref : string)
    (recent_only : bool) (mode : string) (explore_strength : Q) : attempt string :=
  match dict_get mode_keys mode with
  | KeyError key => Raised (PromptKeyError key)
  | Found mode_key =>
      build_prompt genres tone avoid liked_books length_pref recent_only
        mode_key explore_strength
  end.

End Prompt.

(** Lines 201-210: the call made when the demo button is pressed.  The dict
    built there also binds 'avoid', 'liked_books' and 'length_pref', which
    [demo_recommend] never reads. *)
Definition demo_button (lower : string -> string) (genres : list string)
    (tone : string) (recent_only : bool) (mode : string) (explore_strength : Q)
    (k : Z) (g : globals) : lookup (result (list candidate) * globals) :=
  match dict_get mode_keys mode with
  | KeyError key => KeyError key
  | Found mode_key =>
      let prefs :=
        mkPrefs (Some genres)
          (if String.eqb tone "" then None else Some tone)
          (Some recent_only) in
      Found (demo_recommend lower prefs k mode_key explore_strength g)
  end.

(** ** Basic facts about the pieces *)

Lemma truediv_pos (a b : Z) :
  0 < b -> truediv a b = Ok (inject_Z a / inject_Z b)%Q.
Proof.
  intros Hb. unfold truediv.
  destruct (Z.eqb_spec b 0) as [->|_]; [lia | reflexivity].
Qed.

Lemma gset_size_pos (X : gset string) : X <> ∅ -> (0 < size X)%nat.
Proof.
  intros HX. destruct (decide (size X = 0%nat)) as [H0|H0]; [|lia].
  apply size_empty_inv in H0. apply leibniz_equiv in H0. contradiction.
Qed.

Section Scoring.

Variable lower : string -> string.

(** The division of [_genre_overlap] never sees a zero divisor. *)
Lemma genre_overlap_ok (user book : list string) :
  _genre_overlap lower user book = Ok (lowered_genre_overlap lower user book).
Proof.
  unfold _genre_overlap, lowered_genre_overlap, plain_genre_overlap.
  case_bool_decide as Hug; [reflexivity|].
  apply gset_size_pos in Hug.
  rewrite truediv_pos by lia.
  rewrite Z.max_r by lia. reflexivity.
Qed.

Lemma score_body_ok prefs mode es cy r :
  score_body lower (default [] (prefs_genres prefs)) (prefs_tone prefs)
    (default false (prefs_recent_only prefs)) mode
    (fst (pop_weights mode es)) (snd (pop_weights mode es)) cy r
  = Ok (scored_entry lower prefs mode es cy r).
Proof.
  unfold score_body, scored_entry, score_of.
  destruct (too_old _ cy r); [reflexivity|].
  rewrite genre_overlap_ok. reflexivity.
Qed.

Lemma score_loop_ok (body : rec -> result (option candidate))
    (f : rec -> option candidate) (db : list rec) :
  (forall r, body r = Ok (f r)) ->
  forall scored, score_loop body db scored = Ok (scored ++ omap f db).
Proof.
  intros Hbody. induction db as [|r db IH]; intros scored; simpl.
  - by rewrite app_nil_r.
  - rewrite Hbody. destruct (f r) as [c|].
    + rewrite IH. by rewrite <- app_assoc.
    + apply IH.
Qed.

Lemma score_all_ok prefs mode es db cy :
  score_all lower prefs mode es db cy
  = Ok (omap (scored_entry lower prefs mode es cy) db).
Proof.
  unfold score_all.
  pose proof (score_body_ok prefs mode es cy) as Hb.
  destruct (pop_weights mode es) as [a b]. simpl in Hb.
  by rewrite (score_loop_ok _ _ db Hb).
Qed.

Lemma demo_recommend_run prefs k mode es g :
  demo_recommend lower prefs k mode es g
  = (Ok (select k (sort_desc
           (omap (scored_entry lower prefs mode es (g_CURRENT_YEAR g))
              (g_DEMO_DB g)))), g).
Proof.
  unfold demo_recommend, bind, read, lift, ret.
  by rewrite score_all_ok.
Qed.

End Scoring.

(** Runs the call symbolically and names its result. *)
Ltac call_returns :=
  rewrite demo_recommend_run; eexists; split; [reflexivity|].

(** ** The scenarios of the specification, on the catalog of the source *)

Example scenario_famous_fantasy :
  exists res,
    fst (demo_recommend ascii_lower
           (mkPrefs (Some ["판타지"]) (Some "모험") (Some false))
           3 "famous" 0.6 globals_2025) = Ok res
    /\ map (fun c => title (c_rec c)) res
       = ["해리 포터와 마법사의 돌"; "바람이 그린 지도"; "Project Hail Mary"].
Proof. eexists. split; [by rewrite demo_recommend_run|]. by vm_compute. Qed.

Example scenario_recent_balanced :
  exists res,
    fst (demo_recommend ascii_lower (mkPrefs (Some []) None (Some true))
           5 "balanced" 0.6 globals_2025) = Ok res
    /\ map (fun c => (title (c_rec c), year (c_rec c))) res
       = [ ("Project Hail Mary", 2021); ("The Midnight Library", 2020)
         ; ("도시의 낮은 별들", 2022); ("바람이 그린 지도", 2023) ].
Proof. eexists. split; [by rewrite demo_recommend_run|]. by vm_compute. Qed.

Example scenario_discover_novels :
  exists res,
    fst (demo_recommend ascii_lower (mkPrefs (Some ["소설"]) None (Some false))
           3 "discover" 1.0 globals_2025) = Ok res
    /\ map (fun c => title (c_rec c)) res
       = ["바람이 그린 지도"; "도시의 낮은 별들"; "The Midnight Library"].
Proof. eexists. split; [by rewrite demo_recommend_run|]. by vm_compute. Qed.

Example scenario_empty_catalog :
  fst (demo_recommend ascii_lower prefs_empty 3 "famous" 0.6 (mkGlobals [] 2025))
  = Ok [].
Proof. reflexivity. Qed.

(** ** The entries of [scored] *)

Lemma too_old_survives prefs cy r :
  too_old (default false (prefs_recent_only prefs)) cy r
  = negb (survives prefs cy r).
Proof.
  unfold too_old, survives, recentOnly, RECENT_YEARS.
  rewrite negb_involutive. f_equal.
  destruct (Z.ltb_spec (year r) (cy - 5)); case_bool_decide; done || lia.
Qed.

Lemma scored_entry_rec lower prefs mode es cy r c :
  scored_entry lower prefs mode es cy r = Some c ->
  c_rec c = r /\ survives prefs cy r = true.
Proof.
  unfold scored_entry. rewrite too_old_survives.
  destruct (survives prefs cy r); simpl; [|done].
  intros [= <-]. done.
Qed.

Lemma scored_recs lower prefs mode es cy db :
  map c_rec (omap (scored_entry lower prefs mode es cy) db)
  = List.filter (survives prefs cy) db.
Proof.
  induction db as [|r db IH]; [done|].
  cbn [omap list_omap List.filter].
  unfold scored_entry at 1. rewrite too_old_survives.
  destruct (survives prefs cy r); cbn [negb map c_rec fst]; [by rewrite IH | done].
Qed.

(** ** The sort *)

Lemma insert_desc_perm x l : insert_desc x l ≡ₚ x :: l.
Proof.
  induction l as [|y l IH]; simpl; [done|].
  destruct (Qle_bool _ _); [done|].
  rewrite IH. apply perm_swap.
Qed.

Lemma sort_desc_perm l : sort_desc l ≡ₚ l.
Proof.
  induction l as [|x l IH]; simpl; [done|].
  by rewrite insert_desc_perm, IH.
Qed.

Lemma score_ge_trans a b c : score_ge a b -> score_ge b c -> score_ge a c.
Proof. unfold score_ge. intros Hab Hbc. by apply Qle_trans with (c_score b). Qed.

Lemma insert_desc_sorted x l :
  StronglySorted score_ge l -> StronglySorted score_ge (insert_desc x l).
Proof.
  induction 1 as [|y l Hl IH Hy]; simpl.
  - repeat constructor.
  - destruct (Qle_bool (c_score y) (c_score x)) eqn:Hle.
    + apply Qle_bool_iff in Hle.
      constructor; [by constructor|].
      constructor; [done|].
      eapply Forall_impl; [exact Hy|].
      intros z Hz. by apply score_ge_trans with y.
    + constructor; [done|].
      rewrite insert_desc_perm. constructor; [|done].
      unfold score_ge. apply Qlt_le_weak, Qnot_le_lt.
      intros Hc. apply Qle_bool_iff in Hc. congruence.
Qed.

Lemma sort_desc_sorted l : StronglySorted score_ge (sort_desc l).
Proof.
  induction l as [|x l IH]; simpl; [constructor|].
  by apply insert_desc_sorted.
Qed.

(** The sort is stable: candidates of one score keep their order. *)
Lemma insert_desc_same_score (q : Q) x l :
  List.filter (fun c => Qeq_bool (c_score c) q) (insert_desc x l)
  = List.filter (fun c => Qeq_bool (c_score c) q) (x :: l).
Proof.
  induction l as [|y l IH]; [done|].
  cbn [insert_desc].
  destruct (Qle_bool (c_score y) (c_score x)) eqn:Hle; [done|].
  cbn [List.filter] in *. rewrite IH.
  destruct (Qeq_bool (c_score x) q) eqn:Hx; [|done].
  destruct (Qeq_bool (c_score y) q) eqn:Hy; [|done].
  apply Qeq_bool_iff in Hx, Hy.
  assert (Qle_bool (c_score y) (c_score x) = true) as Hle'
    by (apply Qle_bool_iff; rewrite Hx, Hy; apply Qle_refl).
  congruence.
Qed.

(** X19: the sort keeps candidates of equal score in the order they had
    before it. *)
Lemma sort_desc_stable (q : Q) l :
  List.filter (fun c => Qeq_bool (c_score c) q) (sort_desc l)
  = List.filter (fun c => Qeq_bool (c_score c) q) l.
Proof.
  induction l as [|x l IH]; [done|].
  cbn [sort_desc]. rewrite insert_desc_same_score.
  cbn [List.filter]. by rewrite IH.
Qed.

Lemma StronglySorted_sublist {A} (R : A -> A -> Prop) (l1 l2 : list A) :
  l1 `sublist_of` l2 -> StronglySorted R l2 -> StronglySorted R l1.
Proof.
  induction 1 as [|x l1 l2 Hsub IH|x l1 l2 Hsub IH]; intros Hs.
  - constructor.
  - apply StronglySorted_inv in Hs as [Hs Hx].
    constructor; [by apply IH|].
    rewrite Forall_forall in Hx |- *.
    intros y Hy. apply Hx. by eapply elem_of_sublist.
  - apply StronglySorted_inv in Hs as [Hs _]. by apply IH.
Qed.

Lemma StronglySorted_adjacent {A} (R : A -> A -> Prop) (l : list A) i x y :
  StronglySorted R l -> l !! i = Some x -> l !! S i = Some y -> R x y.
Proof.
  intros Hs. revert i. induction Hs as [|a l Hs IH Ha]; intros i Hx Hy; [done|].
  destruct i as [|i]; simpl in *.
  - injection Hx as ->. rewrite Forall_forall in Ha.
    apply Ha. by eapply list_elem_of_lookup_2.
  - by eapply IH.
Qed.

(** ** The author-diversity walk *)

Lemma select_body_cases k c picked seen :
  select_body k c (picked, seen) = ((picked, seen), Continue)
  \/ (exists ctl, select_body k c (picked, seen)
                  = ((picked ++ [c], seen ∪ {[ author (c_rec c) ]}), ctl)).
Proof.
  unfold select_body.
  destruct (_ && _); [by left|right].
  destruct (_ >=? _); eauto.
Qed.

(** The picks are the picks so far followed by a subsequence of the walked
    list. *)
Lemma select_walk_sublist k l :
  forall picked seen,
  exists l', l' `sublist_of` l
    /\ fst (fst (for_each (select_body k) l (picked, seen))) = picked ++ l'.
Proof.
  induction l as [|c l IH]; intros picked seen; cbn [for_each].
  - exists []. by rewrite app_nil_r.
  - destruct (select_body_cases k c picked seen) as [->|[ctl ->]].
    + destruct (IH picked seen) as (l' & Hsub & ->).
      exists l'. split; [by constructor|done].
    + destruct ctl.
      * destruct (IH (picked ++ [c]) (seen ∪ {[ author (c_rec c) ]}))
          as (l' & Hsub & ->).
        exists (c :: l'). split; [by constructor|].
        by rewrite <- app_assoc.
      * exists [c]. split; [|done].
        constructor. apply sublist_nil_l.
Qed.

Lemma select_sublist k scored : select k scored `sublist_of` scored.
Proof.
  unfold select.
  destruct (select_walk_sublist k scored [] ∅) as (l' & Hsub & ->). done.
Qed.

(** While the loop runs, fewer than [k] picks have been made. *)
Lemma select_walk_length k l :
  forall picked seen,
  Z.of_nat (length picked) < k ->
  Z.of_nat (length (fst (fst (for_each (select_body k) l (picked, seen))))) <= k.
Proof.
  induction l as [|c l IH]; intros picked seen Hlt; cbn [for_each]; [simpl; lia|].
  unfold select_body.
  destruct (_ && _); [by apply IH|].
  destruct (Z.geb_spec (Z.of_nat (length (picked ++ [c]))) k) as [Hge|Hnge].
  - simpl. rewrite length_app in *. simpl in *. lia.
  - by apply IH.
Qed.

Lemma select_length k scored :
  0 < k -> Z.of_nat (length (select k scored)) <= k.
Proof. intros Hk. unfold select. by apply select_walk_length. Qed.

(** ** The composite score (C1) *)

Lemma tone_score_match prefs r :
  tone_score (prefs_tone prefs) (btone r) = tone_match prefs r.
Proof.
  unfold tone_score, tone_match, specified_tone, truthy, tone_eq.
  destruct (prefs_tone prefs) as [s|]; [|done].
  destruct (String.eqb_spec s ""), (String.eqb_spec s (btone r));
    repeat case_decide; simpl; congruence.
Qed.

Lemma recent_score_bonus cy r : recent_score cy (year r) = recency_bonus cy r.
Proof.
  unfold recent_score, recency_bonus, RECENT_YEARS.
  destruct (Z.geb_spec (year r) (cy - 5)); case_decide; done || lia.
Qed.

Lemma pop_weights_mode m es : pop_weights (mode_key m) es = mode_weights m es.
Proof. by destruct m. Qed.

Lemma scored_entry_weighted lower prefs mode es cy r c :
  scored_entry lower prefs mode es cy r = Some c ->
  (c_score c == weighted_score lower prefs (pop_weights mode es) cy r)%Q.
Proof.
  unfold scored_entry.
  destruct (too_old _ cy r); [done|]. intros [= <-].
  unfold c_score, weighted_score, composite; cbn [fst snd].
  rewrite tone_score_match, recent_score_bonus.
  unfold W_GENRE, W_TONE, W_RECENT. ring.
Qed.

Lemma scored_entry_score lower prefs m es cy r c :
  scored_entry lower prefs (mode_key m) es cy r = Some c ->
  (c_score c == lowered_score lower prefs m es cy r)%Q.
Proof.
  intros Hc. unfold lowered_score. rewrite <- pop_weights_mode.
  by apply scored_entry_weighted.
Qed.

(** C1, as amended: every catalog book that survives the recentOnly filter is
    scored, and its composite score is
    0.55*g + 0.30*t + 0.15*r + alpha*popularity + beta*(1 - popularity), where
    g is 0.2 if no genre is requested and otherwise the size of the
    intersection of the lowercased requested genres with the lowercased book
    genres over the number of distinct lowercased requested genres; t is 1.0
    for a specified tone equal to the book's, 0.2 for a specified tone that
    differs and 0.5 when no tone is specified; r is 1.0 for a year of at
    least currentYear - 5 and 0.5 otherwise, whatever recentOnly is; and
    (alpha, beta) is (0.30, 0.00) in Famous, (0.15, 0.10) in Balanced and
    (0.00, explorationStrength) in Discover mode.  The returned picks carry
    the same scores. *)
Theorem C1_composite_score (lower : string -> string) (prefs : prefs_dict)
    (k : Z) (m : RankingMode) (es : Q) (g : globals) :
  exists scored res,
    score_all lower prefs (mode_key m) es (g_DEMO_DB g) (g_CURRENT_YEAR g)
      = Ok scored
    /\ map c_rec scored
       = List.filter (survives prefs (g_CURRENT_YEAR g)) (g_DEMO_DB g)
    /\ fst (demo_recommend lower prefs k (mode_key m) es g) = Ok res
    /\ res `sublist_of` sort_desc scored
    /\ forall c, c ∈ scored \/ c ∈ res ->
         (c_score c
          == lowered_score lower prefs m es (g_CURRENT_YEAR g) (c_rec c))%Q.
Proof.
  eexists _, _. split; [apply score_all_ok|].
  split; [apply scored_recs|].
  rewrite demo_recommend_run. split; [reflexivity|].
  split; [apply select_sublist|].
  assert (forall c,
    c ∈ omap (scored_entry lower prefs (mode_key m) es (g_CURRENT_YEAR g))
          (g_DEMO_DB g) ->
    (c_score c == lowered_score lower prefs m es (g_CURRENT_YEAR g) (c_rec c))%Q)
    as Hscored.
  { intros c (r & _ & Hr)%list_elem_of_omap.
    destruct (scored_entry_rec _ _ _ _ _ _ _ Hr) as [-> _].
    by eapply scored_entry_score. }
  intros c [Hc|Hc]; [by apply Hscored|].
  apply Hscored. rewrite <- (sort_desc_perm _).
  by eapply elem_of_sublist, select_sublist.
Qed.

(** C1 as stated, with the genre sets taken as given, fails: asked for "sf",
    the code scores "Project Hail Mary" (genres "SF" and "소설") with a full
    genre overlap, where the sets as given do not intersect. *)
Lemma C1_plain_sets_counterexample :
  ~ (forall scored,
       score_all ascii_lower prefs_sf (mode_key Famous) 0.6 DEMO_DB 2025
         = Ok scored ->
       forall c, c ∈ scored ->
         (c_score c == plain_score prefs_sf Famous 0.6 2025 (c_rec c))%Q).
Proof.
  intros H.
  specialize (H _ (score_all_ok ascii_lower prefs_sf "famous" 0.6%Q DEMO_DB 2025)).
  assert (exists c,
    omap (scored_entry ascii_lower prefs_sf "famous" 0.6%Q 2025) DEMO_DB !! 8%nat
      = Some c /\ c_rec c = hail_mary) as (c & Hc & Hrec)
    by (vm_compute; eauto).
  specialize (H c (list_elem_of_lookup_2 _ _ _ Hc)).
  vm_compute in Hc. injection Hc as <-.
  vm_compute in H. discriminate H.
Qed.

(** ** A catalog with a single author (C2) *)

(** Once the author of every remaining candidate is in [seen_authors] and
    fewer than [k - 1] picks are made, the rest of the walk picks nothing. *)
Lemma select_walk_all_seen k l picked seen a :
  Forall (fun c => author (c_rec c) = a) l ->
  a ∈ seen ->
  Z.of_nat (length picked) < k - 1 ->
  for_each (select_body k) l (picked, seen) = ((picked, seen), Continue).
Proof.
  intros Hall Ha Hlt. induction Hall as [|c l Hc Hall IH]; [done|].
  cbn [for_each]. unfold select_body.
  rewrite Hc, bool_decide_eq_true_2 by done.
  destruct (Z.ltb_spec (Z.of_nat (length picked)) (k - 1)); [|lia].
  cbn [andb]. apply IH.
Qed.

Lemma select_single_author k l a :
  2 < k ->
  Forall (fun c => author (c_rec c) = a) l ->
  select k l = take 1 l.
Proof.
  intros Hk Hall. unfold select.
  destruct Hall as [|c l Hc Hall]; [done|].
  cbn [for_each]. unfold select_body.
  rewrite bool_decide_eq_false_2 by set_solver.
  cbn [andb app length].
  destruct (Z.geb_spec (Z.of_nat 1) k); [lia|].
  rewrite (select_walk_all_seen k l [c] _ a); [done|done|set_solver|simpl; lia].
Qed.

(** C2, as amended: when every book of the catalog (five books, or any other
    number) has the same author and k = 3, the result is the top-scored
    surviving book alone; its length is 1 as soon as a book survives the
    recentOnly filter, and no slot repeats the author. *)
Theorem C2_single_author_one_pick (lower : string -> string)
    (prefs : prefs_dict) (mode : string) (es : Q) (g : globals) (a : string) :
  Forall (fun r => author r = a) (g_DEMO_DB g) ->
  exists scored res,
    score_all lower prefs mode es (g_DEMO_DB g) (g_CURRENT_YEAR g) = Ok scored
    /\ fst (demo_recommend lower prefs 3 mode es g) = Ok res
    /\ res = take 1 (sort_desc scored)
    /\ (length res <= 1)%nat
    /\ (List.filter (survives prefs (g_CURRENT_YEAR g)) (g_DEMO_DB g) <> []
        -> length res = 1%nat).
Proof.
  intros Hall.
  eexists _, _. split; [apply score_all_ok|].
  rewrite demo_recommend_run. split; [reflexivity|].
  set (scored := omap _ _).
  assert (Forall (fun c => author (c_rec c) = a) (sort_desc scored)) as Hsorted.
  { rewrite sort_desc_perm. rewrite Forall_forall in Hall. rewrite Forall_forall.
    intros c (r & Hr & Hc)%list_elem_of_omap.
    destruct (scored_entry_rec _ _ _ _ _ _ _ Hc) as [-> _]. by apply Hall. }
  rewrite (select_single_author 3 _ a) by (done || lia).
  split; [done|].
  split; [rewrite length_take; lia|].
  intros Hne. rewrite length_take.
  rewrite (Permutation_length (sort_desc_perm scored)).
  rewrite <- (length_map c_rec). unfold scored. rewrite scored_recs.
  destruct (List.filter _ _); [done|simpl; lia].
Qed.

Lemma C2_single_author_one_pick_witness :
  Forall (fun r => author r = "Author X") (g_DEMO_DB globals_author_x)
  /\ exists scored res,
       score_all ascii_lower prefs_empty "famous" 0.6
         (g_DEMO_DB globals_author_x) (g_CURRENT_YEAR globals_author_x)
         = Ok scored
       /\ fst (demo_recommend ascii_lower prefs_empty 3 "famous" 0.6
                 globals_author_x) = Ok res
       /\ res = take 1 (sort_desc scored)
       /\ (length res <= 1)%nat
       /\ (List.filter (survives prefs_empty (g_CURRENT_YEAR globals_author_x))
             (g_DEMO_DB globals_author_x) <> []
           -> length res = 1%nat).
Proof.
  assert (Forall (fun r => author r = "Author X") (g_DEMO_DB globals_author_x))
    as Hall by (repeat constructor).
  split; [exact Hall|].
  exact (C2_single_author_one_pick ascii_lower prefs_empty "famous" 0.6%Q
           globals_author_x "Author X" Hall).
Defined.

(** C2 as stated fails: on five books by "Author X" with k = 3 the code
    returns one pick, not three; the other four candidates are skipped because
    one pick is fewer than k - 1 = 2. *)
Lemma C2_three_picks_counterexample :
  exists res,
    fst (demo_recommend ascii_lower prefs_empty 3 "famous" 0.6 globals_author_x)
      = Ok res
    /\ map (fun c => title (c_rec c)) res = ["X1"]
    /\ length res <> 3%nat.
Proof.
  eexists. split; [by rewrite demo_recommend_run|].
  split; [by vm_compute|].
  vm_compute. discriminate.
Qed.

(** ** The skip rule of the walk (C3) *)

Lemma for_each_app {A S} (body : A -> S -> S * control) (l1 l2 : list A) (s : S) :
  for_each body (l1 ++ l2) s
  = match for_each body l1 s with
    | (s', Break) => (s', Break)
    | (s', Continue) => for_each body l2 s'
    end.
Proof.
  revert s. induction l1 as [|a l1 IH]; intros s; [done|].
  cbn [app for_each]. destruct (body a s) as [s' []]; [apply IH|done].
Qed.

(** [seen_authors] is the set of the authors of [picked], all along. *)
Lemma select_walk_seen k l :
  forall p0 s0 picked seen ctl,
  (forall a, a ∈ s0 <-> a ∈ authors_of p0) ->
  for_each (select_body k) l (p0, s0) = ((picked, seen), ctl) ->
  forall a, a ∈ seen <-> a ∈ authors_of picked.
Proof.
  induction l as [|c l IH]; intros p0 s0 picked seen ctl Hinv; cbn [for_each].
  - by intros [= <- <- <-].
  - assert (forall a, a ∈ s0 ∪ {[ author (c_rec c) ]}
                      <-> a ∈ authors_of (p0 ++ [c])) as Hinv'.
    { intros a. unfold authors_of. rewrite map_app, elem_of_app. cbn [map].
      rewrite elem_of_union, elem_of_singleton, list_elem_of_singleton.
      by rewrite (Hinv a). }
    destruct (select_body_cases k c p0 s0) as [->|[ctl' ->]].
    + by apply IH.
    + destruct ctl'; [by apply IH|].
      by intros [= <- <- <-].
Qed.

(** C3: at any point the walk reaches (after the candidates [pre], with the
    loop still running, [picked] picks and [seen] authors), [seen] holds the
    authors already picked; the next candidate [c], when its author was
    already picked, is skipped if and only if fewer than k - 1 picks are
    made, and a candidate of a new author is never skipped; a candidate that
    is not skipped is appended, and the walk stops there exactly when that
    makes k picks or more, returning them whatever follows; otherwise it goes
    on with the rest, and when the list is exhausted the picks made so far
    are returned. *)
Theorem C3_walk_rule (k : Z) (pre : list candidate) (c : candidate)
    (post : list candidate) (picked : list candidate) (seen : gset string) :
  for_each (select_body k) pre ([], ∅) = ((picked, seen), Continue) ->
  (forall a, a ∈ seen <-> a ∈ authors_of picked)
  /\ (author (c_rec c) ∈ authors_of picked ->
      (select_body k c (picked, seen) = ((picked, seen), Continue)
       <-> Z.of_nat (length picked) < k - 1))
  /\ (author (c_rec c) ∉ authors_of picked ->
      select_body k c (picked, seen) <> ((picked, seen), Continue))
  /\ (select_body k c (picked, seen) <> ((picked, seen), Continue) ->
      exists ctl,
        select_body k c (picked, seen)
          = ((picked ++ [c], seen ∪ {[ author (c_rec c) ]}), ctl)
        /\ (ctl = Break <-> k <= Z.of_nat (length (picked ++ [c]))))
  /\ (forall st', select_body k c (picked, seen) = (st', Break) ->
      select k (pre ++ c :: post) = fst st')
  /\ (forall st', select_body k c (picked, seen) = (st', Continue) ->
      select k (pre ++ c :: post)
      = fst (fst (for_each (select_body k) post st')))
  /\ select k pre = picked.
Proof.
  intros Hpre.
  assert (forall a, a ∈ seen <-> a ∈ authors_of picked) as Hseen.
  { eapply select_walk_seen; [|exact Hpre]. set_solver. }
  assert (picked ++ [c] <> picked) as Hgrow.
  { intros Heq. apply (f_equal length) in Heq.
    rewrite length_app in Heq. simpl in Heq. lia. }
  split; [exact Hseen|].
  split; [|split; [|split; [|split; [|split]]]].
  - intros Hin. apply Hseen in Hin. unfold select_body.
    rewrite bool_decide_eq_true_2 by done. cbn [andb].
    destruct (Z.ltb_spec (Z.of_nat (length picked)) (k - 1)) as [Hlt|Hge].
    + done.
    + split; [|lia].
      destruct (_ >=? _); intros [= Heq]; by destruct Hgrow.
  - intros Hnin. unfold select_body.
    rewrite bool_decide_eq_false_2 by (by rewrite Hseen). cbn [andb].
    destruct (_ >=? _); intros [= Heq]; by destruct Hgrow.
  - intros Hpick. unfold select_body in *.
    destruct (_ && _); [done|].
    destruct (Z.geb_spec (Z.of_nat (length (picked ++ [c]))) k).
    + eexists. split; [done|]. split; [lia|done].
    + eexists. split; [done|]. split; [done|lia].
  - intros st' Hst. unfold select.
    rewrite for_each_app, Hpre. cbn [for_each]. by rewrite Hst.
  - intros st' Hst. unfold select.
    rewrite for_each_app, Hpre. cbn [for_each]. by rewrite Hst.
  - unfold select. by rewrite Hpre.
Qed.

Lemma C3_walk_rule_witness :
  for_each (select_body 3) [cand_x1] ([], ∅)
    = (([cand_x1], ∅ ∪ {[ "Author X" ]}), Continue)
  /\ select_body 3 cand_x2 ([cand_x1], ∅ ∪ {[ "Author X" ]})
     = (([cand_x1], ∅ ∪ {[ "Author X" ]}), Continue)
  /\ select 3 [cand_x1] = [cand_x1].
Proof.
  assert (for_each (select_body 3) [cand_x1] ([], ∅)
          = (([cand_x1], ∅ ∪ {[ "Author X" ]}), Continue)) as Hpre
    by reflexivity.
  destruct (C3_walk_rule 3 [cand_x1] cand_x2 [] [cand_x1]
              (∅ ∪ {[ "Author X" ]}) Hpre)
    as (_ & Hskip & _ & _ & _ & _ & Hend).
  split; [exact Hpre|].
  split; [|exact Hend].
  apply Hskip; [|reflexivity].
  apply list_elem_of_here.
Defined.

(** ** Bounds, filter and order of the result (C4, C5, C6) *)

Lemma filter_sublist {A} (f : A -> bool) (l : list A) :
  List.filter f l `sublist_of` l.
Proof.
  induction l as [|x l IH]; simpl; [constructor|].
  destruct (f x); by constructor.
Qed.

Lemma select_recs_sublist lower prefs k mode es cy db :
  exists recs,
    map c_rec (select k (sort_desc (omap (scored_entry lower prefs mode es cy) db)))
      `sublist_of` recs
    /\ recs ≡ₚ List.filter (survives prefs cy) db.
Proof.
  set (scored := omap _ db).
  exists (map c_rec (sort_desc scored)). split.
  - apply (fmap_sublist c_rec), select_sublist.
  - rewrite <- (scored_recs lower prefs mode es cy db).
    apply (fmap_Permutation c_rec), sort_desc_perm.
Qed.

(** C4: for a positive k the result has at most k entries, and at most as
    many as catalog books survive the recentOnly filter; drawn from a catalog
    that lists no record twice, it holds no record twice. *)
Theorem C4_result_bounds (lower : string -> string) (prefs : prefs_dict)
    (k : Z) (mode : string) (es : Q) (g : globals) :
  0 < k ->
  exists res,
    fst (demo_recommend lower prefs k mode es g) = Ok res
    /\ Z.of_nat (length res) <= k
    /\ (length res
        <= length (List.filter (survives prefs (g_CURRENT_YEAR g)) (g_DEMO_DB g)))%nat
    /\ (NoDup (g_DEMO_DB g) -> NoDup (map c_rec res) /\ NoDup res).
Proof.
  intros Hk. call_returns.
  destruct (select_recs_sublist lower prefs k mode es (g_CURRENT_YEAR g)
              (g_DEMO_DB g)) as (recs & Hsub & Hperm).
  split; [by apply select_length|].
  split.
  - rewrite <- (Permutation_length Hperm), <- (length_map c_rec).
    by apply sublist_length.
  - intros Hnodup.
    assert (NoDup (map c_rec (select k (sort_desc
              (omap (scored_entry lower prefs mode es (g_CURRENT_YEAR g))
                 (g_DEMO_DB g)))))) as Hrecs.
    { eapply sublist_NoDup; [|exact Hsub].
      rewrite Hperm. eapply sublist_NoDup; [exact Hnodup|apply filter_sublist]. }
    split; [exact Hrecs|]. by apply (NoDup_fmap_1 c_rec).
Qed.

Lemma C4_result_bounds_witness :
  0 < 5
  /\ NoDup (g_DEMO_DB globals_2025)
  /\ exists res,
       fst (demo_recommend ascii_lower prefs_recent 5 "balanced" 0.6 globals_2025)
         = Ok res
       /\ Z.of_nat (length res) <= 5
       /\ (length res
           <= length (List.filter (survives prefs_recent (g_CURRENT_YEAR globals_2025))
                        (g_DEMO_DB globals_2025)))%nat
       /\ NoDup (map c_rec res) /\ NoDup res.
Proof.
  assert (0 < 5) as Hk by lia.
  assert (NoDup (g_DEMO_DB globals_2025)) as Hnodup
    by (apply (NoDup_fmap_1 title), (bool_decide_unpack _); vm_compute; exact I).
  destruct (C4_result_bounds ascii_lower prefs_recent 5 "balanced" 0.6%Q
              globals_2025 Hk) as (res & Hres & Hlen & Hsurv & Hnd).
  split; [exact Hk|]. split; [exact Hnodup|].
  exists res. split; [exact Hres|]. split; [exact Hlen|].
  split; [exact Hsurv|]. exact (Hnd Hnodup).
Defined.

(** The catalog matters for the last part: a catalog that lists one record
    twice can have it picked twice. *)
Example duplicate_catalog_duplicate_picks :
  exists res,
    fst (demo_recommend ascii_lower prefs_empty 2 "famous" 0.6
           (mkGlobals [hail_mary; hail_mary] 2025)) = Ok res
    /\ map c_rec res = [hail_mary; hail_mary].
Proof. eexists. split; [by rewrite demo_recommend_run|]. by vm_compute. Qed.

(** C5: with recentOnly on, no record whose year is below currentYear - 5 is
    among the picks, whatever the other inputs are: such records are dropped
    before scoring. *)
Theorem C5_recent_only_filter (lower : string -> string) (prefs : prefs_dict)
    (k : Z) (mode : string) (es : Q) (g : globals) :
  prefs_recent_only prefs = Some true ->
  exists res,
    fst (demo_recommend lower prefs k mode es g) = Ok res
    /\ forall b : rec, year b < g_CURRENT_YEAR g - 5 -> b ∉ map c_rec res.
Proof.
  intros Hrecent. call_returns.
  intros b Hold Hin.
  destruct (select_recs_sublist lower prefs k mode es (g_CURRENT_YEAR g)
              (g_DEMO_DB g)) as (recs & Hsub & Hperm).
  eapply elem_of_sublist in Hin; [|exact Hsub].
  rewrite Hperm in Hin. apply list_elem_of_In, filter_In in Hin as [_ Hs].
  unfold survives, recentOnly in Hs. rewrite Hrecent in Hs. cbn in Hs.
  by rewrite bool_decide_eq_true_2 in Hs.
Qed.

Lemma C5_recent_only_filter_witness :
  prefs_recent_only prefs_recent = Some true
  /\ exists res,
       fst (demo_recommend ascii_lower prefs_recent 5 "balanced" 0.6 globals_2025)
         = Ok res
       /\ forall b : rec,
            year b < g_CURRENT_YEAR globals_2025 - 5 -> b ∉ map c_rec res.
Proof.
  split; [reflexivity|].
  exact (C5_recent_only_filter ascii_lower prefs_recent 5 "balanced" 0.6%Q
           globals_2025 eq_refl).
Defined.

(** C6: in every result, each pick scores at least as much as the pick that
    follows it: the picks are a subsequence of the list sorted by descending
    score, and nothing reorders them afterwards. *)
Theorem C6_descending_scores (lower : string -> string) (prefs : prefs_dict)
    (k : Z) (mode : string) (es : Q) (g : globals) :
  exists res,
    fst (demo_recommend lower prefs k mode es g) = Ok res
    /\ forall (i : nat) (c1 c2 : candidate),
         res !! i = Some c1 -> res !! S i = Some c2 ->
         (c_score c2 <= c_score c1)%Q.
Proof.
  call_returns.
  intros i c1 c2 H1 H2.
  eapply (StronglySorted_adjacent score_ge); [|exact H1|exact H2].
  eapply StronglySorted_sublist; [apply select_sublist|apply sort_desc_sorted].
Qed.

(** ** Exploration strength in Discover mode (C7) *)

Lemma composite_score_ok lower genres tone mode es cy r :
  composite_score lower genres tone mode es cy r
  = Ok ((W_GENRE * lowered_genre_overlap lower genres (bgenres r)
         + W_TONE * tone_score tone (btone r)
         + W_RECENT * recent_score cy (year r))
        + (fst (pop_weights mode es) * popularity r
           + snd (pop_weights mode es) * (1.0 - popularity r)))%Q.
Proof.
  unfold composite_score, score_of. by rewrite genre_overlap_ok.
Qed.

(** C7, as amended: in Discover mode, for two books with the same genre, tone
    and recency sub-scores, A less popular than B, the composite score of A
    minus that of B, taken in exact arithmetic, does not decrease when
    explorationStrength grows (it is explorationStrength times the gap in
    popularity).  The binary64 scores the code computes follow this up to
    rounding only. *)
Theorem C7_discover_monotone (lower : string -> string) (genres : list string)
    (tone : option string) (cy : Z) (A B : rec) (gA gB es1 es2 : Q) :
  _genre_overlap lower genres (bgenres A) = Ok gA ->
  _genre_overlap lower genres (bgenres B) = Ok gB ->
  (gA == gB)%Q ->
  (tone_score tone (btone A) == tone_score tone (btone B))%Q ->
  (recent_score cy (year A) == recent_score cy (year B))%Q ->
  (popularity A < popularity B)%Q ->
  (es1 <= es2)%Q ->
  exists a1 b1 a2 b2,
    composite_score lower genres tone "discover" es1 cy A = Ok a1
    /\ composite_score lower genres tone "discover" es1 cy B = Ok b1
    /\ composite_score lower genres tone "discover" es2 cy A = Ok a2
    /\ composite_score lower genres tone "discover" es2 cy B = Ok b2
    /\ (a1 - b1 == es1 * (popularity B - popularity A))%Q
    /\ (a2 - b2 == es2 * (popularity B - popularity A))%Q
    /\ (a1 - b1 <= a2 - b2)%Q.
Proof.
  intros HgA HgB Hg Ht Hr Hpop Hes.
  rewrite genre_overlap_ok in HgA, HgB.
  injection HgA as HgA. injection HgB as HgB.
  eexists _, _, _, _.
  repeat (split; [apply composite_score_ok|]).
  rewrite HgA, HgB. cbn [pop_weights String.eqb Ascii.eqb Bool.eqb fst snd].
  unfold W_GENRE, W_TONE, W_RECENT.
  set (tA := tone_score tone (btone A)) in *.
  set (tB := tone_score tone (btone B)) in *.
  set (rA := recent_score cy (year A)) in *.
  set (rB := recent_score cy (year B)) in *.
  split; [rewrite Hg, Ht, Hr; ring|].
  split; [rewrite Hg, Ht, Hr; ring|].
  nra.
Qed.

Lemma C7_discover_monotone_witness :
  exists a1 b1 a2 b2,
    composite_score ascii_lower ["소설"] None "discover" 0.2 2025 low_stars = Ok a1
    /\ composite_score ascii_lower ["소설"] None "discover" 0.2 2025
         midnight_library = Ok b1
    /\ composite_score ascii_lower ["소설"] None "discover" 0.9 2025 low_stars = Ok a2
    /\ composite_score ascii_lower ["소설"] None "discover" 0.9 2025
         midnight_library = Ok b2
    /\ (a1 - b1 == 0.2 * (popularity midnight_library - popularity low_stars))%Q
    /\ (a2 - b2 == 0.9 * (popularity midnight_library - popularity low_stars))%Q
    /\ (a1 - b1 <= a2 - b2)%Q.
Proof.
  apply (C7_discover_monotone ascii_lower ["소설"] None 2025
           low_stars midnight_library 1%Q 1%Q 0.2%Q 0.9%Q).
  - reflexivity.
  - reflexivity.
  - reflexivity.
  - reflexivity.
  - reflexivity.
  - reflexivity.
  - discriminate.
Defined.

(** C7 as stated fails on the scores the code computes: for "도시의 낮은
    별들" (popularity 0.25) and "The Midnight Library" (popularity 0.9), equal
    in genre, tone and recency, raising the strength from 0.72 to
    0.7200000000000002 leaves the binary64 score of the first as it is and
    raises that of the second, so the first minus the second decreases. *)
Lemma C7_binary64_counterexample :
  (popularity low_stars < popularity midnight_library)%Q
  /\ (0.72 < 0.7200000000000002)%Q
  /\ _genre_overlap ascii_lower ["소설"] (bgenres low_stars)
     = _genre_overlap ascii_lower ["소설"] (bgenres midnight_library)
  /\ tone_score None (btone low_stars) = tone_score None (btone midnight_library)
  /\ recent_score 2025 (year low_stars) = recent_score 2025 (year midnight_library)
  /\ exists a1 b1 a2 b2,
       composite_score_b64 ascii_lower ["소설"] None "discover" 0.72 2025
         low_stars = Ok a1
       /\ composite_score_b64 ascii_lower ["소설"] None "discover" 0.72 2025
            midnight_library = Ok b1
       /\ composite_score_b64 ascii_lower ["소설"] None "discover"
            0.7200000000000002 2025 low_stars = Ok a2
       /\ composite_score_b64 ascii_lower ["소설"] None "discover"
            0.7200000000000002 2025 midnight_library = Ok b2
       /\ PrimFloat.eqb a2 a1 = true
       /\ PrimFloat.ltb b1 b2 = true
       /\ PrimFloat.ltb (PrimFloat.sub a2 b2) (PrimFloat.sub a1 b1) = true
       /\ PrimFloat.leb (PrimFloat.sub a1 b1) (PrimFloat.sub a2 b2) = false.
Proof.
  repeat (split; [reflexivity|]).
  eexists _, _, _, _.
  repeat (split; [vm_compute; reflexivity|]).
  vm_compute. reflexivity.
Qed.

(** ** No exception, no mutation (C8, C9) *)

(** C8: whatever the preferences, k, the mode string and the exploration
    strength (inside [0, 1] or not), the call returns a list and raises
    nothing: the divisor of the genre overlap is never zero.  When the catalog
    is empty or no record survives the recentOnly filter the list is empty. *)
Theorem C8_never_raises (lower : string -> string) (prefs : prefs_dict)
    (k : Z) (mode : string) (es : Q) (g : globals) :
  exists res,
    demo_recommend lower prefs k mode es g = (Ok res, g)
    /\ (List.filter (survives prefs (g_CURRENT_YEAR g)) (g_DEMO_DB g) = []
        -> res = [])
    /\ (g_DEMO_DB g = [] -> res = []).
Proof.
  call_returns.
  assert (List.filter (survives prefs (g_CURRENT_YEAR g)) (g_DEMO_DB g) = [] ->
          select k (sort_desc
            (omap (scored_entry lower prefs mode es (g_CURRENT_YEAR g))
               (g_DEMO_DB g))) = []) as Hnone.
  { intros Hempty. rewrite <- (scored_recs lower prefs mode es) in Hempty.
    apply map_eq_nil in Hempty. by rewrite Hempty. }
  split; [exact Hnone|].
  intros Hdb. apply Hnone. by rewrite Hdb.
Qed.

(** C9: a call leaves the store (the catalog and the current year) as it
    found it, and a second call with the same arguments returns what the
    first returned. *)
Theorem C9_pure_and_deterministic (lower : string -> string)
    (prefs : prefs_dict) (k : Z) (mode : string) (es : Q) (g : globals) :
  snd (demo_recommend lower prefs k mode es g) = g
  /\ g_DEMO_DB (snd (demo_recommend lower prefs k mode es g)) = g_DEMO_DB g
  /\ fst (demo_recommend lower prefs k mode es
            (snd (demo_recommend lower prefs k mode es g)))
     = fst (demo_recommend lower prefs k mode es g).
Proof.
  rewrite !demo_recommend_run. cbn [fst snd]. done.
Qed.

(** ** A mode string outside the three keys (C10) *)

Lemma pop_weights_unknown mode es :
  mode <> "famous" -> mode <> "balanced" ->
  pop_weights mode es = (0.00%Q, es).
Proof.
  intros Hf Hb. unfold pop_weights.
  destruct (String.eqb_spec mode "famous"); [done|].
  by destruct (String.eqb_spec mode "balanced").
Qed.

Lemma why_tags_unknown s_genre s_tone recent_only mode :
  mode <> "famous" -> mode <> "discover" ->
  last (why_tags s_genre s_tone recent_only mode) = Some "균형 가중"
  /\ "발굴 가중" ∉ why_tags s_genre s_tone recent_only mode.
Proof.
  intros Hf Hd. unfold why_tags.
  destruct (String.eqb_spec mode "discover"); [done|].
  destruct (String.eqb_spec mode "famous"); [done|].
  destruct (Qltb _ _), (Qeq_bool _ _), recent_only; cbn [app];
    (split; [reflexivity|]);
    intros Hin; apply (bool_decide_pack _) in Hin; vm_compute in Hin;
    destruct Hin.
Qed.

(** C10: a mode string other than 'famous', 'balanced' and 'discover' is not
    rejected; every candidate is scored with the Discover coefficients
    (alpha = 0, beta = explore_strength), and every rationale list ends with
    the Balanced tag and holds no Discover tag. *)
Theorem C10_unknown_mode (lower : string -> string) (prefs : prefs_dict)
    (k : Z) (mode : string) (es : Q) (g : globals) :
  mode <> "famous" -> mode <> "balanced" -> mode <> "discover" ->
  pop_weights mode es = (0.00%Q, es)
  /\ exists scored res,
       score_all lower prefs mode es (g_DEMO_DB g) (g_CURRENT_YEAR g) = Ok scored
       /\ map c_rec scored
          = List.filter (survives prefs (g_CURRENT_YEAR g)) (g_DEMO_DB g)
       /\ fst (demo_recommend lower prefs k mode es g) = Ok res
       /\ res `sublist_of` sort_desc scored
       /\ forall c, c ∈ scored \/ c ∈ res ->
            (c_score c
             == lowered_score lower prefs Discover es (g_CURRENT_YEAR g) (c_rec c))%Q
            /\ last (c_why c) = Some "균형 가중"
            /\ "발굴 가중" ∉ c_why c.
Proof.
  intros Hf Hb Hd. split; [by apply pop_weights_unknown|].
  eexists _, _. split; [apply score_all_ok|].
  split; [apply scored_recs|].
  rewrite demo_recommend_run. split; [reflexivity|].
  split; [apply select_sublist|].
  set (scored := omap _ _).
  assert (forall c, c ∈ scored ->
    (c_score c
     == lowered_score lower prefs Discover es (g_CURRENT_YEAR g) (c_rec c))%Q
    /\ last (c_why c) = Some "균형 가중"
    /\ "발굴 가중" ∉ c_why c) as Hscored.
  { intros c (r & _ & Hr)%list_elem_of_omap.
    destruct (scored_entry_rec _ _ _ _ _ _ _ Hr) as [Hrec _].
    split.
    - rewrite Hrec. unfold lowered_score. cbn [mode_weights].
      rewrite <- (pop_weights_unknown mode es Hf Hb).
      by apply scored_entry_weighted.
    - unfold scored_entry in Hr. destruct (too_old _ _ r); [done|].
      injection Hr as <-. cbn [c_why snd].
      by apply why_tags_unknown. }
  intros c [Hc|Hc]; [by apply Hscored|].
  apply Hscored. unfold scored. rewrite <- (sort_desc_perm _).
  by eapply elem_of_sublist, select_sublist.
Qed.

Lemma C10_unknown_mode_witness :
  pop_weights "surprise" 0.6 = (0.00%Q, 0.6%Q)
  /\ exists scored res,
       score_all ascii_lower prefs_empty "surprise" 0.6
         (g_DEMO_DB globals_2025) (g_CURRENT_YEAR globals_2025) = Ok scored
       /\ map c_rec scored
          = List.filter (survives prefs_empty (g_CURRENT_YEAR globals_2025))
              (g_DEMO_DB globals_2025)
       /\ fst (demo_recommend ascii_lower prefs_empty 3 "surprise" 0.6 globals_2025)
          = Ok res
       /\ res `sublist_of` sort_desc scored
       /\ forall c, c ∈ scored \/ c ∈ res ->
            (c_score c
             == lowered_score ascii_lower prefs_empty Discover 0.6
                  (g_CURRENT_YEAR globals_2025) (c_rec c))%Q
            /\ last (c_why c) = Some "균형 가중"
            /\ "발굴 가중" ∉ c_why c.
Proof.
  apply (C10_unknown_mode ascii_lower prefs_empty 3 "surprise" 0.6%Q globals_2025);
    discriminate.
Defined.

(** * Further properties of the code *)

(** ** [_genre_overlap] (lines 45-50) *)

(** A quotient of two counts, the divisor positive. *)
Lemma count_ratio_bounds (a b : nat) :
  (a <= b)%nat -> (0 < b)%nat ->
  (0 <= inject_Z (Z.of_nat a) / inject_Z (Z.of_nat b)
   /\ inject_Z (Z.of_nat a) / inject_Z (Z.of_nat b) <= 1)%Q.
Proof.
  intros Hab Hb.
  assert (0 < inject_Z (Z.of_nat b))%Q as Hpos
    by (change 0%Q with (inject_Z 0); rewrite <- Zlt_Qlt; lia).
  split.
  - apply Qle_shift_div_l; [done|]. rewrite Qmult_0_l.
    change 0%Q with (inject_Z 0). rewrite <- Zle_Qle. lia.
  - apply Qle_shift_div_r; [done|]. rewrite Qmult_1_l.
    rewrite <- Zle_Qle. lia.
Qed.

Lemma count_ratio_eq (a b : nat) (n : Z) :
  (0 < b)%nat ->
  (inject_Z (Z.of_nat a) / inject_Z (Z.of_nat b) == inject_Z n)%Q
  <-> Z.of_nat a = n * Z.of_nat b.
Proof.
  intros Hb.
  assert (~ inject_Z (Z.of_nat b) == 0)%Q as Hne.
  { change 0%Q with (inject_Z 0). rewrite inject_Z_injective. lia. }
  rewrite <- inject_Z_injective, inject_Z_mult. split.
  - intros Heq. rewrite <- Heq. field. exact Hne.
  - intros Heq. rewrite Heq. field. exact Hne.
Qed.

Lemma lowered_set_empty (lower : string -> string) (l : list string) :
  (list_to_set (map lower l) : gset string) = ∅ <-> l = [].
Proof.
  destruct l as [|x l]; [done|].
  split; [|done]. cbn [map list_to_set]. set_solver.
Qed.

Lemma lowered_overlap_bounds (lower : string -> string) (user book : list string) :
  (0 <= lowered_genre_overlap lower user book
   /\ lowered_genre_overlap lower user book <= 1)%Q.
Proof.
  unfold lowered_genre_overlap, plain_genre_overlap.
  case_bool_decide as Hug; [split; discriminate|].
  apply count_ratio_bounds.
  - apply subseteq_size, intersection_subseteq_l.
  - by apply gset_size_pos.
Qed.

(** X1: The overlap is a fraction: it lies between 0 and 1. *)
Theorem genre_overlap_range (lower : string -> string)
    (user_genres book_genres : list string) :
  exists q,
    _genre_overlap lower user_genres book_genres = Ok q
    /\ (0 <= q)%Q /\ (q <= 1)%Q.
Proof.
  rewrite genre_overlap_ok. eexists. split; [reflexivity|].
  apply lowered_overlap_bounds.
Qed.

(** X2: Only the sets of lowercased genres count: order, repetition and letter
    case of the two lists are immaterial. *)
Theorem genre_overlap_same_sets (lower : string -> string)
    (user1 user2 book1 book2 : list string) :
  (forall g, g ∈ map lower user1 <-> g ∈ map lower user2) ->
  (forall g, g ∈ map lower book1 <-> g ∈ map lower book2) ->
  _genre_overlap lower user1 book1 = _genre_overlap lower user2 book2.
Proof.
  intros Hu Hb. unfold _genre_overlap.
  assert ((list_to_set (map lower user1) : gset string)
          = list_to_set (map lower user2)) as ->.
  { apply set_eq. intros g. by rewrite !elem_of_list_to_set. }
  assert ((list_to_set (map lower book1) : gset string)
          = list_to_set (map lower book2)) as ->.
  { apply set_eq. intros g. by rewrite !elem_of_list_to_set. }
  done.
Qed.

Lemma genre_overlap_same_sets_witness :
  _genre_overlap ascii_lower ["SF"; "소설"; "sf"] ["Sf"; "고전"; "소설"]
  = _genre_overlap ascii_lower ["소설"; "sf"] ["소설"; "SF"; "고전"; "고전"].
Proof.
  apply (genre_overlap_same_sets ascii_lower
           ["SF"; "소설"; "sf"] ["소설"; "sf"]
           ["Sf"; "고전"; "소설"] ["소설"; "SF"; "고전"; "고전"]).
  - intros g. vm_compute map. rewrite !list_elem_of_In. simpl. tauto.
  - intros g. vm_compute map. rewrite !list_elem_of_In. simpl. tauto.
Defined.

Lemma lowered_overlap_full_iff (lower : string -> string)
    (user book : list string) :
  user <> [] ->
  (lowered_genre_overlap lower user book == 1)%Q
  <-> forall g, g ∈ user -> lower g ∈ map lower book.
Proof.
  intros Hne.
  unfold lowered_genre_overlap, plain_genre_overlap.
  rewrite bool_decide_eq_false_2 by (by rewrite lowered_set_empty).
  set (ug := list_to_set (map lower user) : gset string).
  set (bg := list_to_set (map lower book) : gset string).
  assert (0 < size ug)%nat as Hpos
    by (apply gset_size_pos; unfold ug; by rewrite lowered_set_empty).
  change 1%Q with (inject_Z 1). rewrite count_ratio_eq by done.
  assert (ug ⊆ bg
          <-> forall g, g ∈ user -> lower g ∈ map lower book)
    as <-.
  { unfold ug, bg. split.
    - intros Hsub g Hg. apply (elem_of_list_to_set (C := gset string)), Hsub.
      apply elem_of_list_to_set, list_elem_of_In, in_map.
      by apply list_elem_of_In.
    - intros Hall g Hg. apply elem_of_list_to_set in Hg.
      apply list_elem_of_In, in_map_iff in Hg as (g0 & <- & Hg0).
      apply elem_of_list_to_set, Hall. by apply list_elem_of_In. }
  clearbody ug bg. split.
  - intros Hsize.
    assert (ug ∩ bg ≡ ug) as Heq
      by (apply set_subseteq_size_equiv; [set_solver|lia]).
    set_solver.
  - intros Hsub. assert (ug ∩ bg = ug) as -> by set_solver. lia.
Qed.

(** X3: For a non-empty request the overlap is 1 exactly when every requested
    genre is, up to letter case, a genre of the book. *)
Theorem genre_overlap_full_iff (lower : string -> string)
    (user_genres book_genres : list string) :
  user_genres <> [] ->
  exists q,
    _genre_overlap lower user_genres book_genres = Ok q
    /\ ((q == 1)%Q
        <-> forall g, g ∈ user_genres -> lower g ∈ map lower book_genres).
Proof.
  intros Hne. rewrite genre_overlap_ok. eexists. split; [reflexivity|].
  by apply lowered_overlap_full_iff.
Qed.

Lemma genre_overlap_full_iff_witness :
  exists q,
    _genre_overlap ascii_lower ["sf"; "소설"] ["SF"; "소설"] = Ok q
    /\ ((q == 1)%Q
        <-> forall g, g ∈ ["sf"; "소설"]
              -> ascii_lower g ∈ map ascii_lower ["SF"; "소설"]).
Proof.
  apply (genre_overlap_full_iff ascii_lower ["sf"; "소설"] ["SF"; "소설"]).
  discriminate.
Defined.

Lemma lowered_overlap_zero_iff (lower : string -> string)
    (user book : list string) :
  user <> [] ->
  (lowered_genre_overlap lower user book == 0)%Q
  <-> forall g, g ∈ user -> lower g ∉ map lower book.
Proof.
  intros Hne.
  unfold lowered_genre_overlap, plain_genre_overlap.
  rewrite bool_decide_eq_false_2 by (by rewrite lowered_set_empty).
  set (ug := list_to_set (map lower user) : gset string).
  set (bg := list_to_set (map lower book) : gset string).
  assert (0 < size ug)%nat as Hpos
    by (apply gset_size_pos; unfold ug; by rewrite lowered_set_empty).
  change 0%Q with (inject_Z 0). rewrite count_ratio_eq by done.
  assert (ug ∩ bg = ∅
          <-> forall g, g ∈ user -> lower g ∉ map lower book)
    as <-.
  { unfold ug, bg. split.
    - intros Hdisj g Hg Hin.
      assert (lower g ∈ (list_to_set (map lower user) : gset string)
                        ∩ list_to_set (map lower book)) as Hboth.
      { apply elem_of_intersection. rewrite !elem_of_list_to_set.
        split; [|done]. apply list_elem_of_In, in_map.
        by apply list_elem_of_In. }
      rewrite Hdisj in Hboth. set_solver.
    - intros Hall. apply set_eq. intros g.
      rewrite elem_of_intersection, !elem_of_list_to_set.
      split; [|set_solver]. intros [Hu Hb].
      apply list_elem_of_In, in_map_iff in Hu as (g0 & <- & Hg0).
      destruct (Hall g0); [by apply list_elem_of_In|done]. }
  rewrite Z.mul_0_l. split.
  - intros Hsize. apply leibniz_equiv, size_empty_iff. lia.
  - intros ->. by rewrite size_empty.
Qed.

(** X4: For a non-empty request the overlap is 0 exactly when no requested genre
    is, up to letter case, a genre of the book. *)
Theorem genre_overlap_zero_iff (lower : string -> string)
    (user_genres book_genres : list string) :
  user_genres <> [] ->
  exists q,
    _genre_overlap lower user_genres book_genres = Ok q
    /\ ((q == 0)%Q
        <-> forall g, g ∈ user_genres -> lower g ∉ map lower book_genres).
Proof.
  intros Hne. rewrite genre_overlap_ok. eexists. split; [reflexivity|].
  by apply lowered_overlap_zero_iff.
Qed.

Lemma genre_overlap_zero_iff_witness :
  exists q,
    _genre_overlap ascii_lower ["판타지"] ["SF"; "소설"] = Ok q
    /\ ((q == 0)%Q
        <-> forall g, g ∈ ["판타지"]
              -> ascii_lower g ∉ map ascii_lower ["SF"; "소설"]).
Proof.
  apply (genre_overlap_zero_iff ascii_lower ["판타지"] ["SF"; "소설"]).
  discriminate.
Defined.

(** X5: A book with more genres never overlaps less. *)
Theorem genre_overlap_monotone (lower : string -> string)
    (user_genres book1 book2 : list string) :
  (forall g, g ∈ book1 -> g ∈ book2) ->
  exists q1 q2,
    _genre_overlap lower user_genres book1 = Ok q1
    /\ _genre_overlap lower user_genres book2 = Ok q2
    /\ (q1 <= q2)%Q.
Proof.
  intros Hsub. rewrite !genre_overlap_ok. eexists _, _.
  split; [reflexivity|]. split; [reflexivity|].
  unfold lowered_genre_overlap, plain_genre_overlap.
  case_bool_decide as Hug; [apply Qle_refl|].
  apply gset_size_pos in Hug.
  assert (0 < inject_Z (Z.of_nat (size (list_to_set (map lower user_genres)
                                         : gset string))))%Q as Hpos
    by (change 0%Q with (inject_Z 0); rewrite <- Zlt_Qlt; lia).
  unfold Qdiv. apply Qmult_le_compat_r.
  - rewrite <- Zle_Qle. apply inj_le, subseteq_size.
    apply intersection_mono_l. intros g.
    rewrite !elem_of_list_to_set, !list_elem_of_In, !in_map_iff.
    intros (g0 & <- & Hg0). exists g0. split; [done|].
    by apply list_elem_of_In, Hsub, list_elem_of_In.
  - apply Qlt_le_weak, Qinv_lt_0_compat, Hpos.
Qed.

Lemma genre_overlap_monotone_witness :
  exists q1 q2,
    _genre_overlap ascii_lower ["sf"; "소설"] ["소설"] = Ok q1
    /\ _genre_overlap ascii_lower ["sf"; "소설"] ["SF"; "소설"] = Ok q2
    /\ (q1 <= q2)%Q.
Proof.
  apply (genre_overlap_monotone ascii_lower ["sf"; "소설"] ["소설"] ["SF"; "소설"]).
  intros g Hg. apply list_elem_of_further, Hg.
Defined.

(** ** The composite score (lines 66-87) *)

Lemma tone_score_bounds tone b :
  (0.2 <= tone_score tone b /\ tone_score tone b <= 1)%Q.
Proof.
  unfold tone_score.
  destruct (truthy tone && tone_eq tone b), (negb (truthy tone));
    split; discriminate.
Qed.

Lemma recent_score_bounds cy y :
  (0.5 <= recent_score cy y /\ recent_score cy y <= 1)%Q.
Proof. unfold recent_score. destruct (_ >=? _); split; discriminate. Qed.

(** X6: With a popularity and an exploration strength in [0, 1], every composite
    score lies between 0.135 and 2, whatever the mode string. *)
Theorem composite_score_bounds (lower : string -> string)
    (genres : list string) (tone : option string) (mode : string) (es : Q)
    (cy : Z) (r : rec) :
  (0 <= popularity r)%Q -> (popularity r <= 1)%Q ->
  (0 <= es)%Q -> (es <= 1)%Q ->
  exists s,
    composite_score lower genres tone mode es cy r = Ok s
    /\ (0.135 <= s)%Q /\ (s <= 2)%Q.
Proof.
  intros Hp0 Hp1 He0 He1.
  rewrite composite_score_ok. eexists. split; [reflexivity|].
  destruct (lowered_overlap_bounds lower genres (bgenres r)) as [Hg0 Hg1].
  destruct (tone_score_bounds tone (btone r)) as [Ht0 Ht1].
  destruct (recent_score_bounds cy (year r)) as [Hr0 Hr1].
  set (g := lowered_genre_overlap lower genres (bgenres r)) in *.
  set (t := tone_score tone (btone r)) in *.
  set (rs := recent_score cy (year r)) in *.
  set (p := popularity r) in *.
  unfold pop_weights, W_GENRE, W_TONE, W_RECENT.
  destruct (String.eqb mode "famous"); [cbn [fst snd]; split; lra|].
  destruct (String.eqb mode "balanced"); cbn [fst snd]; split; nra.
Qed.

Lemma composite_score_bounds_witness :
  exists s,
    composite_score ascii_lower ["소설"] None "discover" 1 2025 low_stars = Ok s
    /\ (0.135 <= s)%Q /\ (s <= 2)%Q.
Proof.
  apply (composite_score_bounds ascii_lower ["소설"] None "discover" 1%Q 2025
           low_stars); discriminate.
Defined.

(** X9: The exploration strength is read in no other mode than the last branch of
    lines 67-72: under 'famous' and 'balanced' the whole result is the same
    for any two strengths. *)
Theorem explore_strength_ignored (lower : string -> string)
    (prefs : prefs_dict) (k : Z) (es1 es2 : Q) (g : globals) :
  demo_recommend lower prefs k "famous" es1 g
    = demo_recommend lower prefs k "famous" es2 g
  /\ demo_recommend lower prefs k "balanced" es1 g
     = demo_recommend lower prefs k "balanced" es2 g.
Proof. by rewrite !demo_recommend_run. Qed.

(** ** Reading the [prefs] dict (lines 62-64, 81) *)

Lemma scored_entry_prefs lower p1 p2 mode es cy r :
  default [] (prefs_genres p1) = default [] (prefs_genres p2) ->
  specified_tone p1 = specified_tone p2 ->
  default false (prefs_recent_only p1) = default false (prefs_recent_only p2) ->
  scored_entry lower p1 mode es cy r = scored_entry lower p2 mode es cy r.
Proof.
  intros Hg Ht Hr. unfold scored_entry.
  rewrite !tone_score_match. unfold tone_match. by rewrite Hg, Ht, Hr.
Qed.

(** X10: A missing key acts as its default (no genre, no tone, filter off), and an
    empty tone string acts as no tone: two dicts that agree after these
    defaults give the same result. *)
Theorem prefs_defaults (lower : string -> string) (p1 p2 : prefs_dict)
    (k : Z) (mode : string) (es : Q) (g : globals) :
  default [] (prefs_genres p1) = default [] (prefs_genres p2) ->
  specified_tone p1 = specified_tone p2 ->
  default false (prefs_recent_only p1) = default false (prefs_recent_only p2) ->
  demo_recommend lower p1 k mode es g = demo_recommend lower p2 k mode es g.
Proof.
  intros Hg Ht Hr. rewrite !demo_recommend_run. do 4 f_equal.
  induction (g_DEMO_DB g) as [|r db IH]; [done|].
  cbn [omap list_omap].
  by rewrite (scored_entry_prefs lower p1 p2 mode es _ r Hg Ht Hr), IH.
Qed.

Lemma prefs_defaults_witness :
  demo_recommend ascii_lower (mkPrefs None (Some "") None) 3 "famous" 0.6
    globals_2025
  = demo_recommend ascii_lower (mkPrefs (Some []) None (Some false)) 3 "famous"
      0.6 globals_2025.
Proof.
  apply (prefs_defaults ascii_lower (mkPrefs None (Some "") None)
           (mkPrefs (Some []) None (Some false)) 3 "famous" 0.6%Q globals_2025);
    reflexivity.
Defined.

(** ** The rationale tags (lines 89-98) *)

(** Decides the membership of a literal tag in a literal list. *)
Ltac decide_tag :=
  split;
  [ intros Hin; first [ reflexivity
                      | apply (bool_decide_pack _) in Hin; vm_compute in Hin;
                        destruct Hin ]
  | intros Heq; first [ discriminate Heq
                      | apply (bool_decide_unpack _); vm_compute; exact I ] ].

Lemma why_tags_genre_tag s_genre s_tone recent_only mode :
  "장르 일치" ∈ why_tags s_genre s_tone recent_only mode
  <-> Qltb 0.0 s_genre = true.
Proof.
  unfold why_tags.
  destruct (String.eqb mode "discover"), (String.eqb mode "famous"),
    (Qltb 0.0 s_genre), (Qeq_bool s_tone 1.0), recent_only;
    cbn [app]; decide_tag.
Qed.

Lemma why_tags_tone_tag s_genre s_tone recent_only mode :
  "톤 일치" ∈ why_tags s_genre s_tone recent_only mode
  <-> Qeq_bool s_tone 1.0 = true.
Proof.
  unfold why_tags.
  destruct (String.eqb mode "discover"), (String.eqb mode "famous"),
    (Qltb 0.0 s_genre), (Qeq_bool s_tone 1.0), recent_only;
    cbn [app]; decide_tag.
Qed.

Lemma why_tags_recent_tag s_genre s_tone recent_only mode :
  "최근 5년 필터" ∈ why_tags s_genre s_tone recent_only mode
  <-> recent_only = true.
Proof.
  unfold why_tags.
  destruct (String.eqb mode "discover"), (String.eqb mode "famous"),
    (Qltb 0.0 s_genre), (Qeq_bool s_tone 1.0), recent_only;
    cbn [app]; decide_tag.
Qed.

Lemma lowered_overlap_pos_iff (lower : string -> string)
    (user book : list string) :
  user <> [] ->
  (0 < lowered_genre_overlap lower user book)%Q
  <-> exists g, g ∈ user /\ lower g ∈ map lower book.
Proof.
  intros Hne.
  destruct (lowered_overlap_bounds lower user book) as [H0 _].
  pose proof (lowered_overlap_zero_iff lower user book Hne) as Hzero.
  split.
  - intros Hpos.
    destruct (decide (Exists (fun g => lower g ∈ map lower book) user))
      as [Hex|Hnex].
    + apply Exists_exists in Hex. exact Hex.
    + exfalso. apply (Qlt_irrefl 0).
      eapply Qlt_le_trans; [exact Hpos|]. apply Qle_lteq. right.
      apply Hzero. intros g Hg Hin. apply Hnex, Exists_exists. eauto.
  - intros (g & Hg & Hin).
    apply Qle_lteq in H0 as [Hlt|Heq]; [done|].
    symmetry in Heq. by destruct (proj1 Hzero Heq g Hg).
Qed.

(** The picks are entries the first loop made for catalog records. *)
Lemma result_entries lower prefs k mode es cy db c :
  c ∈ select k (sort_desc (omap (scored_entry lower prefs mode es cy) db)) ->
  exists r, r ∈ db /\ scored_entry lower prefs mode es cy r = Some c.
Proof.
  intros Hc. eapply elem_of_sublist in Hc; [|apply select_sublist].
  rewrite sort_desc_perm in Hc. by apply list_elem_of_omap in Hc.
Qed.

(** X11: A pick carries the tag "장르 일치" exactly when no genre was requested
    (the neutral 0.2 counts as a match) or a requested genre is, up to letter
    case, a genre of the book. *)
Theorem rationale_genre_tag (lower : string -> string) (prefs : prefs_dict)
    (k : Z) (mode : string) (es : Q) (g : globals) :
  exists res,
    fst (demo_recommend lower prefs k mode es g) = Ok res
    /\ forall c, c ∈ res ->
         ("장르 일치" ∈ c_why c
          <-> default [] (prefs_genres prefs) = []
              \/ exists gn, gn ∈ default [] (prefs_genres prefs)
                   /\ lower gn ∈ map lower (bgenres (c_rec c))).
Proof.
  call_returns. intros c (r & _ & Hr)%result_entries.
  unfold scored_entry in Hr. destruct (too_old _ _ r); [done|].
  injection Hr as <-. cbn [c_why c_rec fst snd].
  rewrite why_tags_genre_tag. unfold Qltb.
  rewrite negb_true_iff, <- not_true_iff_false, Qle_bool_iff.
  set (user := default [] (prefs_genres prefs)).
  destruct (decide (user = [])) as [Hnil|Hne].
  - rewrite Hnil. split; [intros _; left; reflexivity|]. intros _ Hle. vm_compute in Hle. by apply Hle.
  - rewrite <- (lowered_overlap_pos_iff lower user (bgenres r) Hne). split.
    + intros Hnle. right. lra.
    + intros [Hnil|Hpos]; [done|]. lra.
Qed.

(** X12: A pick carries the tag "톤 일치" exactly when a non-empty tone was given
    and it is the book's tone, and the tag "최근 5년 필터" exactly when the
    filter is on. *)
Theorem rationale_tone_and_filter_tags (lower : string -> string)
    (prefs : prefs_dict) (k : Z) (mode : string) (es : Q) (g : globals) :
  exists res,
    fst (demo_recommend lower prefs k mode es g) = Ok res
    /\ forall c, c ∈ res ->
         ("톤 일치" ∈ c_why c
          <-> exists s, prefs_tone prefs = Some s /\ s <> ""
                        /\ s = btone (c_rec c))
         /\ ("최근 5년 필터" ∈ c_why c
             <-> prefs_recent_only prefs = Some true).
Proof.
  call_returns. intros c (r & _ & Hr)%result_entries.
  unfold scored_entry in Hr. destruct (too_old _ _ r); [done|].
  injection Hr as <-. cbn [c_why c_rec fst snd]. split.
  - rewrite why_tags_tone_tag. unfold tone_score, truthy, tone_eq.
    destruct (prefs_tone prefs) as [s|]; [|split; [done|by intros (? & ? & _)]].
    destruct (String.eqb_spec s ""), (String.eqb_spec s (btone r)); cbn; split;
      try done; try (intros (s' & [= <-] & Hs & Hb); done).
    intros _. by exists s.
  - rewrite why_tags_recent_tag.
    destruct (prefs_recent_only prefs) as [[]|]; cbn; split; done.
Qed.

(** ** The walk and the result (lines 103-114) *)

(** The first candidate of the sorted list is always picked. *)
Lemma select_cons k c l : exists rest, select k (c :: l) = c :: rest.
Proof.
  unfold select. cbn [for_each]. unfold select_body at 1.
  rewrite bool_decide_eq_false_2 by set_solver. cbn [andb app].
  destruct (_ >=? _); [by exists []|].
  destruct (select_walk_sublist k l [c] (∅ ∪ {[ author (c_rec c) ]}))
    as (l' & _ & ->).
  by exists l'.
Qed.

Lemma sort_desc_nil_iff l : sort_desc l = [] <-> l = [].
Proof.
  split; [|by intros ->]. intros Hnil.
  apply Permutation_nil. by rewrite <- Hnil, sort_desc_perm.
Qed.

Lemma sort_desc_head_best l c0 c :
  head (sort_desc l) = Some c0 -> c ∈ l -> score_ge c0 c.
Proof.
  intros Hhead Hc. rewrite <- (sort_desc_perm l) in Hc.
  pose proof (sort_desc_sorted l) as Hs.
  destruct (sort_desc l) as [|x s]; [done|]. injection Hhead as ->.
  apply StronglySorted_inv in Hs as [_ Hall].
  apply elem_of_cons in Hc as [->|Hc]; [apply Qle_refl|].
  rewrite Forall_forall in Hall. by apply Hall.
Qed.

(** X13: Whatever k is, the result is empty only if no record survives the filter,
    and its first pick has the highest score of all scored records. *)
Theorem top_pick_is_best (lower : string -> string) (prefs : prefs_dict)
    (k : Z) (mode : string) (es : Q) (g : globals) :
  exists scored res,
    score_all lower prefs mode es (g_DEMO_DB g) (g_CURRENT_YEAR g) = Ok scored
    /\ fst (demo_recommend lower prefs k mode es g) = Ok res
    /\ (res = []
        <-> List.filter (survives prefs (g_CURRENT_YEAR g)) (g_DEMO_DB g) = [])
    /\ forall c0 c, head res = Some c0 -> c ∈ scored ->
         (c_score c <= c_score c0)%Q.
Proof.
  eexists _, _. split; [apply score_all_ok|].
  rewrite demo_recommend_run. split; [reflexivity|].
  rewrite <- (scored_recs lower prefs mode es).
  generalize (omap (scored_entry lower prefs mode es (g_CURRENT_YEAR g))
                (g_DEMO_DB g)) as scored.
  intros scored.
  destruct (sort_desc scored) as [|c1 sorted] eqn:Hsorted.
  - apply (proj1 (sort_desc_nil_iff _)) in Hsorted. rewrite Hsorted. done.
  - destruct (select_cons k c1 sorted) as [rest ->]. split.
    + split; [done|]. intros Hnil. apply map_eq_nil in Hnil.
      rewrite Hnil in Hsorted. done.
    + intros c0 c [= <-] Hc.
      apply (sort_desc_head_best scored c1 c); [by rewrite Hsorted|done].
Qed.

Lemma select_at_most_one k l : k <= 1 -> select k l = take 1 l.
Proof.
  intros Hk. destruct l as [|c l]; [done|].
  unfold select. cbn [for_each]. unfold select_body.
  rewrite bool_decide_eq_false_2 by set_solver. cbn [andb app length].
  destruct (Z.geb_spec (Z.of_nat 1) k); [done|lia].
Qed.

(** X14: For k = 1, and also for k = 0 and negative k, the result is the one
    top-scored surviving record (none if nothing survives): a non-positive k
    does not give an empty result. *)
Theorem k_at_most_one_gives_top_pick (lower : string -> string)
    (prefs : prefs_dict) (k : Z) (mode : string) (es : Q) (g : globals) :
  k <= 1 ->
  exists scored res,
    score_all lower prefs mode es (g_DEMO_DB g) (g_CURRENT_YEAR g) = Ok scored
    /\ fst (demo_recommend lower prefs k mode es g) = Ok res
    /\ res = take 1 (sort_desc scored)
    /\ (List.filter (survives prefs (g_CURRENT_YEAR g)) (g_DEMO_DB g) <> []
        -> length res = 1%nat).
Proof.
  intros Hk. eexists _, _. split; [apply score_all_ok|].
  rewrite demo_recommend_run. split; [reflexivity|].
  rewrite select_at_most_one by done. split; [done|].
  intros Hne. rewrite length_take.
  rewrite (Permutation_length (sort_desc_perm _)), <- (length_map c_rec).
  rewrite scored_recs. destruct (List.filter _ _); [done|simpl; lia].
Qed.

Lemma k_at_most_one_gives_top_pick_witness :
  exists scored res,
    score_all ascii_lower prefs_empty "famous" 0.6 (g_DEMO_DB globals_2025)
      (g_CURRENT_YEAR globals_2025) = Ok scored
    /\ fst (demo_recommend ascii_lower prefs_empty 0 "famous" 0.6 globals_2025)
       = Ok res
    /\ res = take 1 (sort_desc scored)
    /\ (List.filter (survives prefs_empty (g_CURRENT_YEAR globals_2025))
          (g_DEMO_DB globals_2025) <> []
        -> length res = 1%nat).
Proof.
  apply (k_at_most_one_gives_top_pick ascii_lower prefs_empty 0 "famous" 0.6%Q
           globals_2025).
  lia.
Defined.

(** The authors of the first k - 1 picks stay pairwise distinct through the
    walk. *)
Lemma select_walk_distinct k l :
  forall picked seen,
  (forall a, a ∈ seen <-> a ∈ authors_of picked) ->
  NoDup (authors_of (take (Z.to_nat (k - 1)) picked)) ->
  NoDup (authors_of (take (Z.to_nat (k - 1))
           (fst (fst (for_each (select_body k) l (picked, seen)))))).
Proof.
  induction l as [|c l IH]; intros picked seen Hseen Hnd; cbn [for_each]; [done|].
  unfold select_body.
  destruct (bool_decide (author (c_rec c) ∈ seen)
            && (Z.of_nat (length picked) <? k - 1)) eqn:Hskip;
    [by apply IH|].
  assert (forall a, a ∈ seen ∪ {[ author (c_rec c) ]}
                    <-> a ∈ authors_of (picked ++ [c])) as Hseen'.
  { intros a. unfold authors_of. rewrite map_app, elem_of_app. cbn [map].
    rewrite elem_of_union, elem_of_singleton, list_elem_of_singleton.
    by rewrite (Hseen a). }
  assert (NoDup (authors_of (take (Z.to_nat (k - 1)) (picked ++ [c]))))
    as Hnd'.
  { apply andb_false_iff in Hskip as [Hnew|Hfull].
    - apply bool_decide_eq_false in Hnew. rewrite Hseen in Hnew.
      destruct (decide (Z.to_nat (k - 1) <= length picked)%nat) as [Hle|Hgt].
      + by rewrite take_app_le.
      + rewrite take_ge in Hnd by lia.
        rewrite take_ge by (rewrite length_app; simpl; lia).
        unfold authors_of in *. rewrite map_app. cbn [map].
        apply NoDup_app. split; [done|]. split; [|apply NoDup_singleton].
        intros a Ha ->%list_elem_of_singleton. done.
    - apply Z.ltb_ge in Hfull. rewrite take_app_le by lia. done. }
  destruct (_ >=? _); [done|]. by apply IH.
Qed.

(** X16: Only the last slot can repeat an author: the authors of the first k - 1
    picks are pairwise distinct. *)
Theorem distinct_authors_before_last_slot (lower : string -> string)
    (prefs : prefs_dict) (k : Z) (mode : string) (es : Q) (g : globals) :
  exists res,
    fst (demo_recommend lower prefs k mode es g) = Ok res
    /\ NoDup (authors_of (take (Z.to_nat (k - 1)) res)).
Proof.
  call_returns. unfold select.
  apply select_walk_distinct; [set_solver|].
  rewrite take_nil. apply NoDup_nil_2.
Qed.

(** With no author twice in the rest of the list and none of them seen, the
    walk takes candidates in order until k picks are made. *)
Lemma select_walk_no_repeat k l :
  forall picked seen,
  NoDup (authors_of l) ->
  (forall c, c ∈ l -> author (c_rec c) ∉ seen) ->
  Z.of_nat (length picked) < k ->
  fst (fst (for_each (select_body k) l (picked, seen)))
  = picked ++ take (Z.to_nat k - length picked) l.
Proof.
  induction l as [|c l IH]; intros picked seen Hnd Hnew Hlt; cbn [for_each].
  - by rewrite take_nil, app_nil_r.
  - unfold select_body at 1.
    rewrite bool_decide_eq_false_2 by (apply Hnew, list_elem_of_here).
    cbn [andb].
    assert (picked ++ take (Z.to_nat k - length picked) (c :: l)
            = (picked ++ [c]) ++ take (Z.to_nat k - length (picked ++ [c])) l)
      as ->.
    { assert (Z.to_nat k - length picked
              = S (Z.to_nat k - length (picked ++ [c])))%nat
        as -> by (rewrite length_app; simpl; lia).
      cbn [take]. by rewrite <- app_assoc. }
    destruct (Z.geb_spec (Z.of_nat (length (picked ++ [c]))) k) as [Hfull|Hroom].
    + cbn [fst].
      assert (Z.to_nat k - length (picked ++ [c]) = 0)%nat as -> by lia.
      by rewrite take_0, app_nil_r.
    + unfold authors_of in Hnd. cbn [map] in Hnd.
      apply NoDup_cons in Hnd as [Hc Hnd].
      apply IH; [done| |lia].
      intros c' Hc'. rewrite elem_of_union, elem_of_singleton.
      intros [Hseen|Heq].
      * exact (Hnew c' (list_elem_of_further _ _ _ Hc') Hseen).
      * apply Hc. rewrite <- Heq.
        apply list_elem_of_In, (in_map (fun c => author (c_rec c))).
        by apply list_elem_of_In.
Qed.

(** X17: When no two records of the catalog share an author, the diversity walk
    changes nothing: for a positive k the result is the k top-scored surviving
    records (all of them if fewer survive). *)
Theorem distinct_authors_give_top_k (lower : string -> string)
    (prefs : prefs_dict) (k : Z) (mode : string) (es : Q) (g : globals) :
  NoDup (map author (g_DEMO_DB g)) ->
  0 < k ->
  exists scored res,
    score_all lower prefs mode es (g_DEMO_DB g) (g_CURRENT_YEAR g) = Ok scored
    /\ fst (demo_recommend lower prefs k mode es g) = Ok res
    /\ res = take (Z.to_nat k) (sort_desc scored)
    /\ length res
       = Nat.min (Z.to_nat k)
           (length (List.filter (survives prefs (g_CURRENT_YEAR g)) (g_DEMO_DB g))).
Proof.
  intros Hnd Hk. eexists _, _. split; [apply score_all_ok|].
  rewrite demo_recommend_run. split; [reflexivity|].
  set (scored := omap _ _).
  assert (select k (sort_desc scored) = take (Z.to_nat k) (sort_desc scored))
    as ->.
  { unfold select. rewrite select_walk_no_repeat; [|  |set_solver|simpl; lia].
    - cbn [app length]. by rewrite Nat.sub_0_r.
    - unfold authors_of.
      rewrite (fmap_Permutation _ _ _ (sort_desc_perm scored)).
      change (NoDup (map (fun c => author (c_rec c)) scored)).
      rewrite <- (map_map c_rec author).
      unfold scored. rewrite scored_recs.
      eapply sublist_NoDup; [exact Hnd|].
      apply (fmap_sublist author), filter_sublist. }
  split; [done|].
  rewrite length_take, (Permutation_length (sort_desc_perm scored)).
  rewrite <- (length_map c_rec). unfold scored. by rewrite scored_recs.
Qed.

Lemma distinct_authors_give_top_k_witness :
  exists scored res,
    score_all ascii_lower prefs_recent "balanced" 0.6 (g_DEMO_DB globals_2025)
      (g_CURRENT_YEAR globals_2025) = Ok scored
    /\ fst (demo_recommend ascii_lower prefs_recent 3 "balanced" 0.6 globals_2025)
       = Ok res
    /\ res = take (Z.to_nat 3) (sort_desc scored)
    /\ length res
       = Nat.min (Z.to_nat 3)
           (length (List.filter (survives prefs_recent (g_CURRENT_YEAR globals_2025))
                      (g_DEMO_DB globals_2025))).
Proof.
  apply (distinct_authors_give_top_k ascii_lower prefs_recent 3 "balanced" 0.6%Q
           globals_2025).
  - apply (bool_decide_unpack _). vm_compute. exact I.
  - lia.
Defined.

(** A pick made before the last slot is the first candidate of its author in
    the walked list. *)
Lemma select_walk_first_of_author k l :
  forall picked seen i c,
  fst (fst (for_each (select_body k) l (picked, seen))) !! i = Some c ->
  (length picked <= i)%nat ->
  Z.of_nat i < k - 1 ->
  exists l1 l2,
    l = l1 ++ c :: l2
    /\ author (c_rec c) ∉ seen
    /\ author (c_rec c) ∉ authors_of l1.
Proof.
  induction l as [|c0 l IH]; intros picked seen i c; cbn [for_each].
  - intros Hi Hlen _. apply lookup_lt_Some in Hi. simpl in Hi. lia.
  - unfold select_body at 1.
    destruct (bool_decide (author (c_rec c0) ∈ seen)) eqn:Hseen0;
      [destruct (Z.ltb_spec (Z.of_nat (length picked)) (k - 1)) as [Hlt|Hge]|];
      cbn [andb].
    + (* skipped: its author is seen *)
      intros Hi Hlen Hik.
      destruct (IH _ _ _ _ Hi Hlen Hik) as (l1 & l2 & -> & Hc & Hl1).
      exists (c0 :: l1), l2. split; [done|]. split; [done|].
      apply bool_decide_eq_true in Hseen0.
      unfold authors_of. cbn [map]. rewrite not_elem_of_cons.
      split; [|done]. intros Heq. by rewrite Heq in Hc.
    + (* picked in the last slot or later *)
      intros _ Hlen Hik. lia.
    + (* picked: a new author *)
      apply bool_decide_eq_false in Hseen0.
      intros Hi Hlen Hik.
      destruct (decide (i = length picked)) as [->|Hne].
      * assert (c = c0) as ->.
        { destruct (_ >=? _); cbn [fst] in Hi.
          - rewrite lookup_app_r, Nat.sub_diag in Hi by done. by injection Hi.
          - destruct (select_walk_sublist k l (picked ++ [c0])
                        (seen ∪ {[ author (c_rec c0) ]})) as (l' & _ & Heq).
            rewrite Heq, <- (assoc_L (++)) in Hi.
            rewrite lookup_app_r, Nat.sub_diag in Hi by done. by injection Hi. }
        exists [], l. split; [done|]. split; [done|].
        unfold authors_of. cbn [map]. apply not_elem_of_nil.
      * destruct (_ >=? _); cbn [fst] in Hi.
        { apply lookup_lt_Some in Hi. rewrite length_app in Hi.
          simpl in Hi. lia. }
        destruct (IH _ _ _ _ Hi) as (l1 & l2 & -> & Hc & Hl1);
          [rewrite length_app; simpl; lia|done|].
        exists (c0 :: l1), l2. split; [done|].
        rewrite not_elem_of_union, not_elem_of_singleton in Hc.
        destruct Hc as [Hc Hne0]. split; [done|].
        unfold authors_of. cbn [map]. rewrite not_elem_of_cons. done.
Qed.

(** X18: Every pick before the last slot is the best-scored surviving record of
    its author: no scored record of the same author scores higher. *)
Theorem picks_are_authors_best (lower : string -> string)
    (prefs : prefs_dict) (k : Z) (mode : string) (es : Q) (g : globals) :
  exists scored res,
    score_all lower prefs mode es (g_DEMO_DB g) (g_CURRENT_YEAR g) = Ok scored
    /\ fst (demo_recommend lower prefs k mode es g) = Ok res
    /\ forall (i : nat) (c c' : candidate),
         res !! i = Some c ->
         Z.of_nat i < k - 1 ->
         c' ∈ scored ->
         author (c_rec c') = author (c_rec c) ->
         (c_score c' <= c_score c)%Q.
Proof.
  eexists _, _. split; [apply score_all_ok|].
  rewrite demo_recommend_run. split; [reflexivity|].
  set (scored := omap _ _).
  intros i c c' Hi Hik Hc' Hauthor. unfold select in Hi.
  destruct (select_walk_first_of_author k _ _ _ _ _ Hi) as (l1 & l2 & Hl & _ & Hl1);
    [simpl; lia|done|].
  pose proof (sort_desc_sorted scored) as Hsorted.
  rewrite <- (sort_desc_perm scored), Hl in Hc'. rewrite Hl in Hsorted.
  apply StronglySorted_app in Hsorted as (_ & _ & Hsorted).
  apply StronglySorted_inv in Hsorted as [_ Hall].
  apply elem_of_app in Hc' as [Hin1|Hin2].
  - destruct Hl1. rewrite <- Hauthor. unfold authors_of.
    apply list_elem_of_In, (in_map (fun c => author (c_rec c))).
    by apply list_elem_of_In.
  - apply elem_of_cons in Hin2 as [->|Hin2]; [apply Qle_refl|].
    rewrite Forall_forall in Hall. by apply Hall.
Qed.

Lemma select_two l : select 2 l = take 2 l.
Proof.
  destruct l as [|c1 [|c2 l]]; [done| |].
  - unfold select. cbn [for_each]. unfold select_body.
    rewrite bool_decide_eq_false_2 by set_solver. done.
  - unfold select. cbn [for_each]. unfold select_body at 1.
    rewrite bool_decide_eq_false_2 by set_solver. cbn [andb app length].
    destruct (Z.geb_spec (Z.of_nat 1) 2); [lia|].
    unfold select_body at 1. cbn [length].
    destruct (Z.ltb_spec (Z.of_nat 1) (2 - 1)); [lia|].
    rewrite andb_false_r. cbn [app length].
    destruct (Z.geb_spec (Z.of_nat 2) 2); [done|lia].
Qed.

(** X15: With k = 2 the skip rule never applies (one pick already is k - 1): the
    result is the two top-scored surviving records, same author or not. *)
Theorem k_two_gives_top_two (lower : string -> string) (prefs : prefs_dict)
    (mode : string) (es : Q) (g : globals) :
  exists scored res,
    score_all lower prefs mode es (g_DEMO_DB g) (g_CURRENT_YEAR g) = Ok scored
    /\ fst (demo_recommend lower prefs 2 mode es g) = Ok res
    /\ res = take 2 (sort_desc scored).
Proof.
  eexists _, _. split; [apply score_all_ok|].
  rewrite demo_recommend_run. split; [reflexivity|]. apply select_two.
Qed.

(** ** [build_prompt] and the button handlers (lines 120-144, 190-210) *)

Section PromptFacts.

Variables dedent strip : string -> string.
Variable percent : Q -> string.

Lemma slider_range_no_overflow (es : Q) :
  (0 <= es)%Q -> (es <= 1)%Q ->
  Qle_bool b64_overflow (Qabs.Qabs (es * 100)) = false.
Proof.
  intros H0 H1. apply not_true_iff_false. rewrite Qle_bool_iff.
  assert (100 < b64_overflow)%Q as Hbig by reflexivity.
  rewrite Qabs.Qabs_pos by nra. nra.
Qed.

(** When the product does not overflow, a key of the dict gives a prompt. *)
Lemma build_prompt_known_key (genres : list string) (tone : string)
    (avoid liked_books : list string) (length_pref : string)
    (recent_only : bool) (key : string) (es : Q) :
  Qle_bool b64_overflow (Qabs.Qabs (es * 100)) = false ->
  key = "famous" \/ key = "balanced" \/ key = "discover" ->
  exists text,
    build_prompt dedent strip percent genres tone avoid liked_books
      length_pref recent_only key es = Returned text.
Proof.
  intros Hfin Hkey. unfold build_prompt, mode_texts, int_percent.
  rewrite Hfin. destruct Hkey as [-> | [-> | ->]]; cbn; eauto.
Qed.


Lemma mode_keys_lookup (mode : string) :
  match dict_get mode_keys mode with
  | Found key =>
      mode ∈ mode_labels
      /\ (key = "famous" \/ key = "balanced" \/ key = "discover")
  | KeyError key => key = mode /\ mode ∉ mode_labels
  end.
Proof.
  unfold mode_keys, mode_labels. cbn [dict_get].
  destruct (String.eqb_spec "유명도 우선" mode) as [<-|H1];
    [split; [set_solver|by left]|].
  destruct (String.eqb_spec "균형" mode) as [<-|H2];
    [split; [set_solver|by right; left]|].
  destruct (String.eqb_spec "발굴 우선" mode) as [<-|H3];
    [split; [set_solver|by right; right]|].
  split; [done|]. set_solver.
Qed.

(** X21: for a strength in the range of the slider, 0 to 1, pressing the
    prompt button yields a prompt exactly when the mode is one of the three
    labels of the radio: each label is turned into a key that [build_prompt]
    knows, and the percentage does not overflow, so nothing is raised. *)
Theorem prompt_button_labels (genres : list string) (tone : string)
    (avoid liked_books : list string) (length_pref : string)
    (recent_only : bool) (mode : string) (es : Q) :
  (0 <= es)%Q -> (es <= 1)%Q ->
  (exists text,
     prompt_button dedent strip percent genres tone avoid liked_books
       length_pref recent_only mode es = Returned text)
  <-> mode ∈ mode_labels.
Proof.
  intros H0 H1. unfold prompt_button.
  pose proof (mode_keys_lookup mode) as Hkey.
  destruct (dict_get mode_keys mode) as [key|key].
  - destruct Hkey as [Hlabel Hkey]. split; [done|]. intros _.
    apply build_prompt_known_key; [by apply slider_range_no_overflow|done].
  - destruct Hkey as [_ Hlabel]. split; [by intros [text Htext]|done].
Qed.

End PromptFacts.

Lemma prompt_button_labels_witness :
  (exists text,
     prompt_button (fun s => s) (fun s => s) (fun _ => "60") ["소설"] "" [] []
       "보통" false "균형" 0.6 = Returned text)
  <-> "균형" ∈ mode_labels.
Proof.
  apply (prompt_button_labels (fun s => s) (fun s => s) (fun _ => "60")
           ["소설"] "" [] [] "보통" false "균형" 0.6%Q); discriminate.
Defined.

Lemma why_tags_mode_tag s_genre s_tone recent_only :
  last (why_tags s_genre s_tone recent_only "famous") = Some "유명도 가중"
  /\ last (why_tags s_genre s_tone recent_only "balanced") = Some "균형 가중"
  /\ last (why_tags s_genre s_tone recent_only "discover") = Some "발굴 가중".
Proof.
  unfold why_tags.
  by destruct (Qltb 0.0 s_genre), (Qeq_bool s_tone 1.0), recent_only.
Qed.

(** X22: Pressing the demo button with one of the three radio labels and a
    positive k raises nothing and returns at most k picks, each closing its
    rationale with the tag of the chosen label. *)
Theorem demo_button_labels (lower : string -> string) (genres : list string)
    (tone : string) (recent_only : bool) (mode : string) (es : Q) (k : Z)
    (g : globals) :
  mode ∈ mode_labels ->
  0 < k ->
  exists res,
    demo_button lower genres tone recent_only mode es k g = Found (Ok res, g)
    /\ Z.of_nat (length res) <= k
    /\ forall c, c ∈ res ->
         (mode = "유명도 우선" -> last (c_why c) = Some "유명도 가중")
         /\ (mode = "균형" -> last (c_why c) = Some "균형 가중")
         /\ (mode = "발굴 우선" -> last (c_why c) = Some "발굴 가중").
Proof.
  intros Hlabel Hk. unfold demo_button.
  assert (forall key, exists res,
    demo_recommend lower
      (mkPrefs (Some genres) (if String.eqb tone "" then None else Some tone)
         (Some recent_only)) k key es g = (Ok res, g)
    /\ Z.of_nat (length res) <= k
    /\ forall c, c ∈ res ->
         exists s_genre s_tone,
           c_why c = why_tags s_genre s_tone recent_only key) as Hcall.
  { intros key. rewrite demo_recommend_run. eexists. split; [reflexivity|].
    split; [by apply select_length|].
    intros c (r & _ & Hr)%result_entries.
    unfold scored_entry in Hr. destruct (too_old _ _ r); [done|].
    injection Hr as <-. cbn [c_why snd prefs_recent_only default]. eauto. }
  unfold mode_labels in Hlabel.
  apply elem_of_cons in Hlabel as [->|Hlabel];
    [|apply elem_of_cons in Hlabel as [->|Hlabel];
      [|apply list_elem_of_singleton in Hlabel as ->]];
    cbn [mode_keys dict_get String.eqb Ascii.eqb Bool.eqb];
    match goal with
    | |- context [demo_recommend _ _ _ ?key _ _] =>
        destruct (Hcall key) as (res & -> & Hlen & Htags)
    end;
    exists res; (split; [reflexivity|]); (split; [exact Hlen|]);
    intros c (s_genre & s_tone & ->)%Htags;
    destruct (why_tags_mode_tag s_genre s_tone recent_only) as (Hf & Hb & Hd);
    repeat split; intros Hmode; first [done | discriminate Hmode].
Qed.

Lemma demo_button_labels_witness :
  exists res,
    demo_button ascii_lower ["소설"] "" false "발굴 우선" 0.6 3 globals_2025
      = Found (Ok res, globals_2025)
    /\ 3 >= Z.of_nat (length res)
    /\ forall c, c ∈ res -> last (c_why c) = Some "발굴 가중".
Proof.
  destruct (demo_button_labels ascii_lower ["소설"] "" false "발굴 우선" 0.6%Q 3
              globals_2025) as (res & Hres & Hlen & Htags).
  - do 2 apply list_elem_of_further. apply list_elem_of_here.
  - lia.
  - exists res. split; [exact Hres|]. split; [lia|].
    intros c Hc. by apply (Htags c Hc).
Defined.
